(** * Generalized task arithmetic merge (mergekit): model and properties

    Shallow embedding of
    [mergekit/merge_methods/generalized_task_arithmetic.py]:
    [get_task_vectors], [get_mask] and [GTATask.execute].

    Numeric model.  Tensor elements are exact rationals ([Qc], canonical
    fractions, so that equality of tensors is plain equality); rounding of
    the floating dtypes is not modelled and a cast between floating dtypes
    keeps every value.  The integer dtypes that the mask code can select
    ([int8], and [int64] for its sums) are modelled as [Z] with their
    wrap-around written out. *)

From Stdlib Require Import String.
From Stdlib Require Import List ZArith QArith Qcanon Qcabs Lia Lqa Bool Arith.
Import ListNotations.

Local Open Scope string_scope.
Local Open Scope list_scope.
Local Open Scope Qc_scope.

(** ** Errors, results and the call monad *)

(** The Python exceptions the modelled code can raise; the messages of
    torch's errors are shortened. *)
Inductive error : Type :=
| KeyError
| IndexError
| RuntimeError (msg : string).

Inductive result (A : Type) : Type :=
| Ok (a : A)
| Err (e : error).

Arguments Ok {A} a.
Arguments Err {A} e.

(** What a call leaves behind besides its value: the warnings written with
    [logging.warning] and the calls made to [sparsify], [torch.stack],
    [get_mask] and [get_tall_mask], in program order. *)
Inductive event : Type :=
| Warning (msg : string)
| CallSparsify (model : string)
| CallStack
| CallGetMask
| CallGetTallMask (model : string).

(** A computation yields a value or raises, and in both cases the events it
    produced up to that point. *)
Definition M (A : Type) : Type := (result A * list event)%type.

Definition ret {A} (a : A) : M A := (Ok a, nil).
Definition emit (ev : event) : M unit := (Ok tt, ev :: nil).
Definition lift {A} (r : result A) : M A := (r, nil).

Definition bind {A B} (m : M A) (f : A -> M B) : M B :=
  match m with
  | (Ok a, log) => (fst (f a), log ++ snd (f a))
  | (Err e, log) => (Err e, log)
  end.

Declare Scope gta_scope.
Delimit Scope gta_scope with gta.
Notation "x <- m ;; k" := (bind m (fun x => k))
  (at level 61, m at next level, right associativity) : gta_scope.
Notation "' p <- m ;; k" := (bind m (fun x => match x with p => k end))
  (at level 61, p pattern, m at next level, right associativity) : gta_scope.
Notation "m ;;; k" := (bind m (fun _ => k))
  (at level 61, right associativity) : gta_scope.
Local Open Scope gta_scope.

Fixpoint mapM {A B} (f : A -> M B) (l : list A) : M (list B) :=
  match l with
  | [] => ret []
  | a :: l' => b <- f a ;; bs <- mapM f l' ;; ret (b :: bs)
  end.

(** ** Scalars *)

Definition Qceqb (x y : Qc) : bool :=
  match x ?= y with Eq => true | _ => false end.
Definition Qcleb (x y : Qc) : bool :=
  match x ?= y with Gt => false | _ => true end.
Definition Qcltb (x y : Qc) : bool :=
  match x ?= y with Lt => true | _ => false end.

(** [torch.sign] on one element: -1, 0 or 1. *)
Definition sgn (x : Qc) : Qc :=
  match x ?= 0 with Lt => - (1) | Eq => 0 | Gt => 1 end.

(** The threshold [1e-8] of the unmasked divisor guard. *)
Definition eps : Qc := Q2Qc (1 # 100000000).

(** A boolean used as a number (True is 1, False is 0). *)
Definition b2q (b : bool) : Qc := if b then 1 else 0.

(** Two's-complement wrap-around of the integer dtypes. *)
Definition wrap (bits : Z) (z : Z) : Z :=
  ((z + 2 ^ (bits - 1)) mod 2 ^ bits - 2 ^ (bits - 1))%Z.

(** Cast of a rational to an integer dtype: truncation toward zero. *)
Definition trunc (q : Qc) : Z := Z.quot (Qnum q) (Zpos (Qden q)).

(** ** Tensors *)

Fixpoint zipWith {A B C} (f : A -> B -> C) (l : list A) (l' : list B) : list C :=
  match l, l' with
  | a :: t, b :: t' => f a b :: zipWith f t t'
  | _, _ => []
  end.

(** Number of elements of a shape. *)
Definition numel (s : list nat) : nat := fold_right Nat.mul 1%nat s.

(** A tensor: its shape and its elements in row-major order. *)
Record Tensor : Type := mkTensor { shape : list nat; data : list Qc }.

Definition wf (t : Tensor) : Prop := length (data t) = numel (shape t).

(** A boolean tensor, as [get_tall_mask] returns. *)
Record BoolTensor : Type := mkBool { bshape : list nat; bdata : list bool }.

Definition shape_eqb (s s' : list nat) : bool :=
  if list_eq_dec Nat.eq_dec s s' then true else false.

(** [n] consecutive blocks of [k] elements. *)
Fixpoint chunks {A} (k n : nat) (l : list A) : list (list A) :=
  match n with
  | O => []
  | S n' => firstn k l :: chunks k n' (skipn k l)
  end.

(** [x[:r, :c]]: the leading [r] entries of axis 0 and the leading [c] of
    axis 1 (a slice bound beyond an axis is clipped); indexing two axes of a
    tensor of lower rank is an IndexError. *)
Definition slice2 (x : Tensor) (r c : nat) : result Tensor :=
  match shape x with
  | s0 :: s1 :: rest =>
      let p := numel rest in
      let rows := firstn r (chunks (s1 * p) s0 (data x)) in
      Ok {| shape := Nat.min r s0 :: Nat.min c s1 :: rest;
            data := concat (map (firstn (c * p)) rows) |}
  | _ => Err IndexError
  end.

(** *** Broadcasting *)

(** Broadcast of two shapes read from the trailing axis (both reversed). *)
Fixpoint broadcast_rev (a b : list nat) : option (list nat) :=
  match a, b with
  | [], _ => Some b
  | _, [] => Some a
  | x :: a', y :: b' =>
      match broadcast_rev a' b' with
      | None => None
      | Some s =>
          if (x =? y)%nat then Some (x :: s)
          else if (x =? 1)%nat then Some (y :: s)
          else if (y =? 1)%nat then Some (x :: s)
          else None
      end
  end.

Definition broadcast_shapes (a b : list nat) : option (list nat) :=
  option_map (@rev nat) (broadcast_rev (rev a) (rev b)).

(** A shape padded on the left with 1s up to rank [n]. *)
Definition pad_shape (n : nat) (s : list nat) : list nat :=
  repeat 1%nat (n - length s) ++ s.

(** Elements of a tensor of shape [src] expanded to shape [tgt] (same rank,
    each axis of [src] equal to that of [tgt] or 1). *)
Fixpoint expand (src tgt : list nat) (d : list Qc) : list Qc :=
  match src, tgt with
  | s :: ss, t :: ts =>
      let blocks := map (expand ss ts) (chunks (numel ss) s d) in
      if (s =? t)%nat then concat blocks
      else concat (repeat (concat blocks) t)
  | _, _ => d
  end.

(** An elementwise binary operator on two tensors, with broadcasting; shapes
    that do not broadcast are a RuntimeError. *)
Definition broadcast_op (f : Qc -> Qc -> Qc) (a b : Tensor) : result Tensor :=
  match broadcast_shapes (shape a) (shape b) with
  | None => Err (RuntimeError "The size of tensor a must match the size of tensor b")
  | Some s =>
      let n := length s in
      Ok {| shape := s;
            data := zipWith f (expand (pad_shape n (shape a)) s (data a))
                              (expand (pad_shape n (shape b)) s (data b)) |}
  end.

Definition tsub : Tensor -> Tensor -> result Tensor := broadcast_op Qcminus.
Definition tadd : Tensor -> Tensor -> result Tensor := broadcast_op Qcplus.

(** *** Stacks *)

(** [torch.stack(ts, dim=0)] on (shape, elements) pairs: the common shape and
    one row per tensor.  An empty list and unequal shapes are RuntimeErrors. *)
Definition stack_rows {A} (ts : list (list nat * list A))
  : result (list nat * list (list A)) :=
  match ts with
  | [] => Err (RuntimeError "stack expects a non-empty TensorList")
  | t :: ts' =>
      if forallb (fun u => shape_eqb (fst u) (fst t)) ts'
      then Ok (fst t, map snd ts)
      else Err (RuntimeError "stack expects each tensor to be equal size")
  end.

(** A tensor of shape [length rows :: elem_shape], kept as its rows along
    axis 0 (each row the elements of one stacked tensor). *)
Record Stack : Type := mkStack { elem_shape : list nat; rows : list (list Qc) }.

Definition stack (ts : list Tensor) : result Stack :=
  match stack_rows (map (fun t => (shape t, data t)) ts) with
  | Ok (s, r) => Ok {| elem_shape := s; rows := r |}
  | Err e => Err e
  end.

(** [sum(dim=0)] of rows of [m] elements, for an accumulator [add]. *)
Definition sum_rows {A B} (add : B -> A -> B) (zero : B) (m : nat)
  (rs : list (list A)) : list B :=
  fold_left (zipWith add) rs (repeat zero m).

Definition sum_dim0 (m : nat) (rs : list (list Qc)) : list Qc :=
  sum_rows Qcplus 0 m rs.

(** ** get_mask *)

Inductive dtype : Type := float_dtype | int8.

(** The operations [get_mask] performs in the dtype of the mask.  [acc] is
    the dtype of a [sum(dim=0)] over tensors of that dtype. *)
Class MaskDtype (T : Type) : Type := {
  acc : Type;
  cast : Qc -> T;              (* a float tensor [.to(mask_dtype)] *)
  of_bool : bool -> T;         (* a bool tensor [.to(mask_dtype)] *)
  mul2_sub1 : T -> T;          (* [x * 2 - 1] *)
  acc_zero : acc;
  acc_add : acc -> T -> acc;
  acc_ge0 : acc -> bool;       (* [s >= 0] *)
  elt_eqb : T -> T -> bool     (* [==] *)
}.

(** A floating mask dtype (the dtype of the base tensor). *)
#[export] Instance float_mask : MaskDtype Qc := {|
  acc := Qc;
  cast := fun q => q;
  of_bool := b2q;
  mul2_sub1 := fun x => x * Q2Qc 2 - 1;
  acc_zero := 0;
  acc_add := Qcplus;
  acc_ge0 := fun s => Qcleb 0 s;
  elt_eqb := Qceqb
|}.

(** [torch.int8]: 8-bit elements; its [sum] is computed in [int64], here
    summed in [Z] and wrapped once, which is what wrapping after every
    addition gives. *)
#[export] Instance int8_mask_dtype : MaskDtype Z := {|
  acc := Z;
  cast := fun q => wrap 8 (trunc q);
  of_bool := fun b => if b then 1%Z else 0%Z;
  mul2_sub1 := fun x => wrap 8 (wrap 8 (x * 2) - 1);
  acc_zero := 0%Z;
  acc_add := Z.add;
  acc_ge0 := fun s => (0 <=? wrap 64 s)%Z;
  elt_eqb := Z.eqb
|}.

(** The double-quote character of the error message. *)
Definition dquote : string := String (Ascii.ascii_of_nat 34) EmptyString.

Section GetMask.
Context {T : Type} {D : MaskDtype T}.

(** The body of [get_mask] once the mask dtype is fixed.  The result has
    the shape of [delta]: one row of booleans per row of [delta]. *)
Definition get_mask_in (delta : Stack) (method : string)
  : result (list (list bool)) :=
  let m := numel (elem_shape delta) in
  let sign := map (map (fun x => cast (sgn x))) (rows delta) in
  if string_dec method "sum" then
    let sign_weight := sum_dim0 m (rows delta) in
    let majority_sign :=
      map (fun s => mul2_sub1 (of_bool (Qcleb 0 s))) sign_weight in
    Ok (map (fun r => zipWith elt_eqb r majority_sign) sign)
  else if string_dec method "count" then
    let majority_sign :=
      map (fun s => mul2_sub1 (of_bool (acc_ge0 s)))
          (sum_rows acc_add acc_zero m sign) in
    Ok (map (fun r => zipWith elt_eqb r majority_sign) sign)
  else
    Err (RuntimeError
           (String.append "Unimplemented mask method "
              (String.append dquote (String.append method dquote)))).
End GetMask.

(** [get_mask(delta, method, mask_dtype)]; a missing [mask_dtype] is the
    dtype of [delta]. *)
Definition get_mask (delta : Stack) (method : string)
  (mask_dtype : option dtype) : result (list (list bool)) :=
  match mask_dtype with
  | Some int8 => get_mask_in (T := Z) delta method
  | Some float_dtype | None => get_mask_in (T := Qc) delta method
  end.

(** ** Configuration and descriptors *)

Module ConsensusMethod.
Inductive t : Type := count | sum.

(** The value of the string enum, which is what [==] compares. *)
Definition value (c : t) : string :=
  match c with count => "count" | sum => "sum" end.
End ConsensusMethod.

(** Modelled from the spec: the enum [SparsificationMethod] of
    [mergekit.sparsify], which is not part of the sources at hand; the spec
    lists these members, and the code names the last four. *)
Module SparsificationMethod.
Inductive t : Type :=
| magnitude
| magnitude_outliers
| rank_magnitude_sampling
| consensus_ta
| consensus_ties.

Definition eqb (a b : t) : bool :=
  match a, b with
  | magnitude, magnitude
  | magnitude_outliers, magnitude_outliers
  | rank_magnitude_sampling, rank_magnitude_sampling
  | consensus_ta, consensus_ta
  | consensus_ties, consensus_ties => true
  | _, _ => false
  end.
End SparsificationMethod.

Record GeneralizedTaskArithmeticMerge : Type := {
  consensus_method : option ConsensusMethod.t;
  sparsification_method : option SparsificationMethod.t;
  default_normalize : bool;
  default_rescale : bool;
  method_name : string
}.

(** The part of [WeightInfo] the merge reads. *)
Record WeightInfo : Type := { name : string; is_embed : bool }.

(** The names of the per-model tensor parameters, as [tensor_parameters]
    declares them. *)
Module Param.
Inductive t : Type := weight | density | gamma | epsilon | lambda | k.

Definition eqb (p q : t) : bool :=
  match p, q with
  | weight, weight | density, density | gamma, gamma
  | epsilon, epsilon | lambda, lambda | k, k => true
  | _, _ => false
  end.
End Param.

Fixpoint assoc {K V} (eqb : K -> K -> bool) (key : K) (m : list (K * V))
  : option V :=
  match m with
  | [] => None
  | (k', v) :: m' => if eqb k' key then Some v else assoc eqb key m'
  end.

(** [m[key]], a KeyError when the key is absent. *)
Definition getitem {K V} (eqb : K -> K -> bool) (key : K) (m : list (K * V))
  : result V :=
  match assoc eqb key m with
  | Some v => Ok v
  | None => Err KeyError
  end.

(** [del m[key]]. *)
Definition delitem {K V} (eqb : K -> K -> bool) (key : K) (m : list (K * V))
  : list (K * V) :=
  filter (fun kv => negb (eqb (fst kv) key)) m.

(** Dictionaries keyed by model reference, in insertion order. *)
Definition TensorMap : Type := list (string * Tensor).
Definition ParamMap : Type := list (string * list (Param.t * Qc)).

(** The dictionary [d] built for one model: the keys [model] and [delta],
    the model's tensor parameters, and the keys [sparsified_delta] and
    [tall_mask] that [execute] adds later. *)
Record Descriptor : Type := {
  tv_model : string;
  tv_delta : Tensor;
  tv_params : list (Param.t * Qc);
  tv_sparsified_delta : option Tensor;
  tv_tall_mask : option BoolTensor
}.

(** The dictionary as [get_task_vectors] builds it. *)
Definition descriptor (model : string) (delta : Tensor)
  (ps : list (Param.t * Qc)) : Descriptor :=
  {| tv_model := model; tv_delta := delta; tv_params := ps;
     tv_sparsified_delta := None; tv_tall_mask := None |}.

(** [tv[p]] for a tensor parameter. *)
Definition tv_get (p : Param.t) (tv : Descriptor) : result Qc :=
  getitem Param.eqb p (tv_params tv).

(** [tvs[0][p]]. *)
Definition first_get (p : Param.t) (tvs : list Descriptor) : result Qc :=
  match tvs with
  | tv0 :: _ => tv_get p tv0
  | nil => Err IndexError
  end.

Definition get_sparsified_delta (tv : Descriptor) : result Tensor :=
  match tv_sparsified_delta tv with Some t => Ok t | None => Err KeyError end.

Definition get_tall_mask_of (tv : Descriptor) : result BoolTensor :=
  match tv_tall_mask tv with Some t => Ok t | None => Err KeyError end.

Record GTATask : Type := {
  method : GeneralizedTaskArithmeticMerge;
  base_model : string;
  weight_info : WeightInfo;
  tensor_parameters : ParamMap;
  int8_mask : bool;
  normalize : bool;
  rescale : bool
}.

(** ** get_task_vectors *)

(** [t.shape[i]]. *)
Definition shape_at (t : Tensor) (i : nat) : result nat :=
  match nth_error (shape t) i with
  | Some n => Ok n
  | None => Err IndexError
  end.

Definition submatrix_warning (model parameter_name : string) : string :=
  String.append "Using submatrix of "
    (String.append model (String.append ":" parameter_name)).

Definition skip_warning (model parameter_name : string) : string :=
  String.append "skipping "
    (String.append model
       (String.append ":" (String.append parameter_name " due to size mismatch"))).

Fixpoint foldM {A S} (f : A -> S -> M S) (l : list A) (s : S) : M S :=
  match l with
  | [] => ret s
  | a :: l' => s' <- f a s ;; foldM f l' s'
  end.

(** The tensor of [model] that enters the subtraction, after the size check:
    [None] when the model is skipped. *)
Definition fit_to_base (wi : WeightInfo) (base : Tensor) (model : string)
  (x : Tensor) : M (option Tensor) :=
  if negb (shape_eqb (shape x) (shape base)) then
    if is_embed wi then
      b0 <- lift (shape_at base 0) ;;
      b1 <- lift (shape_at base 1) ;;
      x' <- lift (slice2 x b0 b1) ;;
      emit (Warning (submatrix_warning model (name wi))) ;;;
      ret (Some x')
    else
      emit (Warning (skip_warning model (name wi))) ;;;
      ret None
  else ret (Some x).

(** One iteration of the loop over [keys]; the state is the list [res] and
    the dictionary [tensors], which the iteration may shrink. *)
Definition gtv_step (wi : WeightInfo) (base_model : string) (base : Tensor)
  (tensor_parameters : ParamMap) (model : string)
  (st : list Descriptor * TensorMap) : M (list Descriptor * TensorMap) :=
  if String.eqb model base_model then ret st
  else
    x <- lift (getitem String.eqb model (snd st)) ;;
    ox <- fit_to_base wi base model x ;;
    match ox with
    | None => ret st
    | Some x =>
        delta <- lift (tsub x base) ;;
        let tensors := delitem String.eqb model (snd st) in
        ps <- lift (getitem String.eqb model tensor_parameters) ;;
        ret (fst st ++ descriptor model delta ps :: nil, tensors)
    end.

(** [get_task_vectors]: the descriptors, the base tensor, and the input
    dictionary as the call leaves it. *)
Definition get_task_vectors (wi : WeightInfo) (base_model : string)
  (tensors : TensorMap) (tensor_parameters : ParamMap)
  : M (list Descriptor * Tensor * TensorMap) :=
  let keys := map fst tensors in
  base <- lift (getitem String.eqb base_model tensors) ;;
  st <- foldM (gtv_step wi base_model base tensor_parameters) keys ([], tensors) ;;
  ret (fst st, base, snd st).

(** ** GTATask.execute *)

(** [mixed /= divisor] where the divisor has one element per element of
    [mixed] or, broadcast, a single element. *)
Definition divide (mixed divisor : list Qc) : list Qc :=
  match divisor with
  | d :: nil => map (fun x => x / d) mixed
  | _ => zipWith Qcdiv mixed divisor
  end.

(** [deltas * weights], the weights unsqueezed to one per row. *)
Definition scale_rows (rs : list (list Qc)) (weights : list Qc)
  : list (list Qc) :=
  zipWith (fun r w => map (fun x => x * w) r) rs weights.

(** [weighted_deltas * mask] and [weights * mask], row by row. *)
Definition masked_deltas (weighted_deltas : list (list Qc))
  (mask : list (list bool)) : list (list Qc) :=
  zipWith (zipWith (fun x b => x * b2q b)) weighted_deltas mask.

Definition masked_weights (weights : list Qc) (mask : list (list bool))
  : list (list Qc) :=
  zipWith (fun w r => map (fun b => w * b2q b) r) weights mask.

(** [divisor[divisor == 0] = 1]. *)
Definition guard_zero (divisor : list Qc) : list Qc :=
  map (fun d => if Qceqb d 0 then 1 else d) divisor.

(** [weights.sum(dim=0)]: one element, the weights being unsqueezed to
    shape (n, 1, ..., 1). *)
Definition weight_sum (weights : list Qc) : list Qc :=
  fold_left Qcplus weights 0 :: nil.

(** [divisor[divisor.abs() < 1e-8] = 1]. *)
Definition guard_small (divisor : list Qc) : list Qc :=
  map (fun d => if Qcltb (Qcabs d) eps then 1 else d) divisor.

(** [tall_masks.sum(dim=0) >= k], the sum computed in [int64] (summed in
    [Z] and wrapped once). *)
Definition count_at_least (m : nat) (tall_masks : list (list bool)) (kq : Qc)
  : list bool :=
  map (fun c => Qcleb kq (Q2Qc (inject_Z (wrap 64 c))))
      (sum_rows (fun (a : Z) (b : bool) => (a + if b then 1 else 0)%Z) 0%Z m
                tall_masks).

Definition bool_to_tensor (s : list nat) (bs : list bool) : Tensor :=
  {| shape := s; data := map b2q bs |}.

Definition mask_dtype_of (self : GTATask) : dtype :=
  if int8_mask self then int8 else float_dtype.

Definition set_sparsified_delta (tv : Descriptor) (t : Tensor) : Descriptor :=
  {| tv_model := tv_model tv; tv_delta := tv_delta tv;
     tv_params := tv_params tv;
     tv_sparsified_delta := Some t; tv_tall_mask := tv_tall_mask tv |}.

Definition set_tall_mask (tv : Descriptor) (t : BoolTensor) : Descriptor :=
  {| tv_model := tv_model tv; tv_delta := tv_delta tv;
     tv_params := tv_params tv;
     tv_sparsified_delta := tv_sparsified_delta tv; tv_tall_mask := Some t |}.

Fixpoint mapR {A B} (f : A -> result B) (l : list A) : result (list B) :=
  match l with
  | [] => Ok []
  | a :: l' =>
      match f a with
      | Err e => Err e
      | Ok b => match mapR f l' with Err e => Err e | Ok bs => Ok (b :: bs) end
      end
  end.

Section Execute.
(** The external primitives of [mergekit.sparsify]:
    [sparsify(tensor, density, method, rescale, gamma=..., epsilon=...)],
    the two keyword arguments passed only when present, and
    [get_tall_mask(delta, lambda, mixed_delta)]. *)
Variable sparsify :
  Tensor -> Qc -> SparsificationMethod.t -> bool -> option Qc -> option Qc
  -> Tensor.
Variable get_tall_mask : Tensor -> Qc -> Tensor -> BoolTensor.

(** The body of the sparsification loop for one descriptor. *)
Definition sparsify_one (self : GTATask) (sm : SparsificationMethod.t)
  (tv_info : Descriptor) : M Descriptor :=
  let kw_gamma := assoc Param.eqb Param.gamma (tv_params tv_info) in
  let kw_epsilon := assoc Param.eqb Param.epsilon (tv_params tv_info) in
  d <- lift (tv_get Param.density tv_info) ;;
  emit (CallSparsify (tv_model tv_info)) ;;;
  ret (set_sparsified_delta tv_info
         (sparsify (tv_delta tv_info) d sm (rescale self) kw_gamma kw_epsilon)).

(** The [else] branch of the [# sparsify] block: the stack of the raw
    deltas, the descriptors untouched. *)
Definition raw_deltas (tvs : list Descriptor) : M (list Descriptor * Stack) :=
  emit CallStack ;;;
  deltas <- lift (stack (map tv_delta tvs)) ;;
  ret (tvs, deltas).

(** The [# sparsify] block: the descriptors as it leaves them and the
    stack [deltas].  The test is [method and method != consensus_ta]. *)
Definition sparsify_stage (self : GTATask) (tvs : list Descriptor)
  : M (list Descriptor * Stack) :=
  match sparsification_method (method self) with
  | Some sm =>
      if negb (SparsificationMethod.eqb sm SparsificationMethod.consensus_ta)
      then
        tvs' <- mapM (sparsify_one self sm) tvs ;;
        ts <- lift (mapR get_sparsified_delta tvs') ;;
        emit CallStack ;;;
        deltas <- lift (stack ts) ;;
        ret (tvs', deltas)
      else raw_deltas tvs
  | None => raw_deltas tvs
  end.

(** The [# get sign consensus and mix deltas] block: [mixed_delta] and
    the guarded [divisor]. *)
Definition mix_stage (self : GTATask) (deltas : Stack) (weights : list Qc)
  : M (list Qc * list Qc) :=
  let m := numel (elem_shape deltas) in
  let weighted_deltas := scale_rows (rows deltas) weights in
  match consensus_method (method self) with
  | Some cm =>
      emit CallGetMask ;;;
      mask <- lift (get_mask {| elem_shape := elem_shape deltas;
                                rows := weighted_deltas |}
                             (ConsensusMethod.value cm)
                             (Some (mask_dtype_of self))) ;;
      ret (sum_dim0 m (masked_deltas weighted_deltas mask),
           guard_zero (sum_dim0 m (masked_weights weights mask)))
  | None =>
      ret (sum_dim0 m weighted_deltas, guard_small (weight_sum weights))
  end.

(** The tall-mask block: the consensus mask and the trimmed mixed delta. *)
Definition tall_mask_stage (tvs : list Descriptor) (mixed_delta : Tensor)
  : M (list bool * Tensor) :=
  tvs' <- mapM (fun tv_info =>
                  lam <- lift (tv_get Param.lambda tv_info) ;;
                  emit (CallGetTallMask (tv_model tv_info)) ;;;
                  ret (set_tall_mask tv_info
                         (get_tall_mask (tv_delta tv_info) lam mixed_delta)))
               tvs ;;
  tms <- lift (mapR get_tall_mask_of tvs') ;;
  emit CallStack ;;;
  tall_masks <- lift (stack_rows (map (fun t => (bshape t, bdata t)) tms)) ;;
  kq <- lift (first_get Param.k tvs') ;;
  let consensus_mask :=
    count_at_least (numel (fst tall_masks)) (snd tall_masks) kq in
  trimmed <- lift (broadcast_op Qcmult mixed_delta
                     (bool_to_tensor (fst tall_masks) consensus_mask)) ;;
  ret (consensus_mask, trimmed).

Definition is_consensus (sm : option SparsificationMethod.t) : bool :=
  match sm with
  | Some SparsificationMethod.consensus_ta
  | Some SparsificationMethod.consensus_ties => true
  | _ => false
  end.

Definition is_rank_magnitude_sampling (sm : option SparsificationMethod.t)
  : bool :=
  match sm with
  | Some SparsificationMethod.rank_magnitude_sampling => true
  | _ => false
  end.

(** Everything after the early return, for a non-empty [tvs]. *)
Definition merge (self : GTATask) (tvs : list Descriptor) (base : Tensor)
  : M Tensor :=
  st <- sparsify_stage self tvs ;;
  let tvs := fst st in
  let deltas := snd st in
  weights <- lift (mapR (tv_get Param.weight) tvs) ;;
  md <- mix_stage self deltas weights ;;
  let mixed_delta :=
    if normalize self then divide (fst md) (snd md) else fst md in
  mixed_delta <-
    (if is_rank_magnitude_sampling (sparsification_method (method self))
     then
       lambda_factor <- lift (first_get Param.lambda tvs) ;;
       ret (map (fun x => x * lambda_factor) mixed_delta)
     else ret mixed_delta) ;;
  let mixed_delta :=
    {| shape := elem_shape deltas; data := mixed_delta |} in
  mixed_delta <-
    (if is_consensus (sparsification_method (method self))
     then r <- tall_mask_stage tvs mixed_delta ;; ret (snd r)
     else ret mixed_delta) ;;
  lift (tadd base mixed_delta).

(** [GTATask.execute(tensors)]: the merged tensor. *)
Definition execute (self : GTATask) (tensors : TensorMap) : M Tensor :=
  r <- get_task_vectors (weight_info self) (base_model self) tensors
         (tensor_parameters self) ;;
  match fst (fst r) with
  | [] => ret (snd (fst r))
  | _ :: _ => merge self (fst (fst r)) (snd (fst r))
  end.
End Execute.

From Stdlib Require Import Permutation.

(** * The declarations of the merge method

    [GeneralizedTaskArithmeticMerge.parameters], [tensor_parameters] and
    [make_task]. *)

(** The values the declarations use as defaults. *)
Inductive pyvalue : Type :=
| PyBool (b : bool)
| PyInt (z : Z)
| PyFloat (q : Qc).

(** Modelled from the spec: [ConfigParameterDef] of
    [mergekit.merge_methods.base], which is not part of the sources at
    hand: a name, whether the parameter is required (it is not unless the
    call says so) and a default value (none unless the call gives one). *)
Record ConfigParameterDef : Type := {
  cp_name : string;
  required : bool;
  default_value : option pyvalue
}.

Definition optional (n : string) (v : pyvalue) : ConfigParameterDef :=
  {| cp_name := n; required := false; default_value := Some v |}.

Module Decl.
(** [parameters()]. *)
Definition parameters (self : GeneralizedTaskArithmeticMerge)
  : list ConfigParameterDef :=
  optional "int8_mask" (PyBool false)
  :: optional "normalize" (PyBool (default_normalize self))
  :: optional "rescale" (PyBool (default_rescale self))
  :: nil.

Definition is_method (self : GeneralizedTaskArithmeticMerge)
  (sm : SparsificationMethod.t) : bool :=
  match sparsification_method self with
  | Some sm' => SparsificationMethod.eqb sm' sm
  | None => false
  end.

(** [tensor_parameters()]: [res] and the three conditional blocks that
    append to it. *)
Definition tensor_parameters (self : GeneralizedTaskArithmeticMerge)
  : list ConfigParameterDef :=
  let res :=
    {| cp_name := "weight"; required := true; default_value := None |}
    :: optional "density" (PyFloat 1) :: nil in
  let res :=
    if is_method self SparsificationMethod.magnitude_outliers
    then res ++ optional "gamma" (PyFloat (Q2Qc (1 # 100))) :: nil
    else res in
  let res :=
    if is_method self SparsificationMethod.rank_magnitude_sampling
    then (res ++ optional "epsilon" (PyFloat (Q2Qc (15 # 100))) :: nil)
         ++ optional "lambda" (PyFloat 1) :: nil
    else res in
  let res :=
    if is_method self SparsificationMethod.consensus_ta
       || is_method self SparsificationMethod.consensus_ties
    then (res ++ optional "k" (PyInt 1) :: nil)
         ++ optional "lambda" (PyFloat 1) :: nil
    else res in
  res.

(** [make_task(output_weight, tensors, base_model, parameters,
    tensor_parameters)], for a base model that is given and a map
    [parameters] whose values are booleans: the three subscripts are
    evaluated in the order of the call, each a KeyError when the key is
    absent.  The argument [tensors] is the input task of the scheduler,
    which [execute] receives evaluated. *)
Definition make_task (self : GeneralizedTaskArithmeticMerge)
  (output_weight : WeightInfo) (base_model : string)
  (parameters : list (string * bool)) (tensor_parameters : ParamMap)
  : result GTATask :=
  match getitem String.eqb "int8_mask" parameters with
  | Err e => Err e
  | Ok i8 =>
      match getitem String.eqb "normalize" parameters with
      | Err e => Err e
      | Ok norm =>
          match getitem String.eqb "rescale" parameters with
          | Err e => Err e
          | Ok resc =>
              (* method, base_model, weight_info, tensor_parameters,
                 int8_mask, normalize, rescale *)
              Ok (Build_GTATask self base_model output_weight
                    tensor_parameters i8 norm resc)
          end
      end
  end.
End Decl.

(** The key of a tensor parameter in the dictionaries of the program. *)
Definition param_name (p : Param.t) : string :=
  match p with
  | Param.weight => "weight"
  | Param.density => "density"
  | Param.gamma => "gamma"
  | Param.epsilon => "epsilon"
  | Param.lambda => "lambda"
  | Param.k => "k"
  end.

(** * Model cards: [mergekit/card.py]

    [is_hf], [extract_hf_paths], [maybe_link_hf] and [modelref_md].
    A Python [str] is modelled by its UTF-8 bytes; the characters the code
    tests, [/] and [~], are ASCII and occur in no other encoding. *)

Module Card.
(** [c in s] for a one-character string [c], and [s.count(c)]. *)
Fixpoint contains (s : string) (c : Ascii.ascii) : bool :=
  match s with
  | EmptyString => false
  | String c' s' => Ascii.eqb c' c || contains s' c
  end.

Fixpoint count (s : string) (c : Ascii.ascii) : nat :=
  match s with
  | EmptyString => O
  | String c' s' => ((if Ascii.eqb c' c then 1 else 0) + count s' c)%nat
  end.

Definition slash : Ascii.ascii := Ascii.ascii_of_nat 47.

Definition bindR {A B} (r : result A) (f : A -> result B) : result B :=
  match r with Ok a => f a | Err e => Err e end.

Section Environment.
(** [ModelReference] of [mergekit.common] is not part of the sources at
    hand; the card code reads [model.model.path] and, when [model.lora] is
    set, [model.lora.path]. *)
Variable ModelReference : Type.
Variable model_path : ModelReference -> string.
Variable lora_path : ModelReference -> option string.

(** [os.path.exists], and [huggingface_hub.repo_exists(path,
    repo_type="model", token=False)]: its answer, or [None] when it raises
    HFValidationError.  Other failures of the hub client are not modelled. *)
Variable path_exists : string -> bool.
Variable repo_exists : string -> option bool.

(** [is_hf(path)]; [path[0]] raises IndexError on the empty string. *)
Definition is_hf (path : string) : result bool :=
  match path with
  | EmptyString => Err IndexError
  | String c _ =>
      if contains "/~" c || (1 <? count path slash)%nat
      then Ok false
      else if negb (path_exists path)
      then Ok true
      else match repo_exists path with
           | Some b => Ok b
           | None => Ok false
           end
  end.

(** What one model contributes to [extract_hf_paths]. *)
Definition hf_paths_of (model : ModelReference) : result (list string) :=
  bindR (is_hf (model_path model)) (fun b =>
  let first := if b then model_path model :: nil else nil in
  match lora_path model with
  | Some l =>
      bindR (is_hf l) (fun b' => Ok (first ++ if b' then l :: nil else nil))
  | None => Ok first
  end).

(** [list(extract_hf_paths(models))]: the paths the generator yields, or
    the exception that ends the iteration. *)
Fixpoint extract_hf_paths (models : list ModelReference)
  : result (list string) :=
  match models with
  | nil => Ok nil
  | model :: models' =>
      bindR (hf_paths_of model) (fun ps =>
      bindR (extract_hf_paths models') (fun ps' => Ok (ps ++ ps')))
  end.

(** [maybe_link_hf(path)]. *)
Definition maybe_link_hf (path : string) : result string :=
  bindR (is_hf path) (fun b =>
  Ok (if b
      then String.append "["
             (String.append path
                (String.append "](https://huggingface.co/"
                   (String.append path ")")))
      else path)).

(** [modelref_md(model)]. *)
Definition modelref_md (model : ModelReference) : result string :=
  bindR (maybe_link_hf (model_path model)) (fun text =>
  match lora_path model with
  | Some l =>
      bindR (maybe_link_hf l) (fun text' =>
      Ok (String.append text (String.append " + " text')))
  | None => Ok text
  end).

(** The paths a reference names, the model before its LoRA. *)
Definition paths_of (model : ModelReference) : list string :=
  model_path model
  :: match lora_path model with Some l => l :: nil | None => nil end.

(** Whether [is_hf] answers True. *)
Definition hf (p : string) : bool :=
  match is_hf p with Ok true => true | _ => false end.

(** The text of a reference none of whose paths is linked. *)
Definition plain_text (model : ModelReference) : string :=
  match lora_path model with
  | Some l => String.append (model_path model) (String.append " + " l)
  | None => model_path model
  end.
End Environment.

(** A path that [is_hf] takes for a local one without looking further. *)
Definition looks_local (p : string) : Prop :=
  match p with
  | EmptyString => False
  | String c _ => contains "/~" c = true \/ (1 < count p slash)%nat
  end.

(** References as pairs of a path and the path of a LoRA, and two
    environments: one where nothing exists locally, one where everything
    exists locally and on the hub. *)
Definition local_ref : string * option string :=
  ("/models/a", Some "~/loras/b").

Definition hub_ref : string * option string := ("org/model", None).

Definition nothing_exists (_ : string) : bool := false.
Definition no_repo (_ : string) : option bool := Some false.
Definition everything_exists (_ : string) : bool := true.
Definition every_repo (_ : string) : option bool := Some true.
End Card.

From Stdlib Require Import Floats.SpecFloat.

(** * The merge in floating point

    The same program with the arithmetic of the tensors as it is performed:
    every element is a binary floating-point number of the tensors' dtype
    ([spec_float], the IEEE 754 numbers with one NaN), and [+], [-], [*],
    [/] and the comparisons are those of IEEE 754 in that dtype, each
    result rounded to nearest, ties to even.  All tensors of one call have
    the same dtype.

    What torch leaves open is a parameter: the reduction [sum(dim=0)]
    (order and intermediate precision of the additions), the conversion of
    a Python number to the dtype by [torch.tensor], and the product of a
    tensor with a Python number. *)

Module FP.
Inductive fdtype : Type := float16 | bfloat16 | float32 | float64.

(** Bits of the significand (with the implicit one), and the exponent of
    the infinities. *)
Definition prec (dt : fdtype) : Z :=
  match dt with
  | float16 => 11 | bfloat16 => 8 | float32 => 24 | float64 => 53
  end%Z.

Definition emax (dt : fdtype) : Z :=
  match dt with
  | float16 => 16 | bfloat16 => 128 | float32 => 128 | float64 => 1024
  end%Z.

Definition zero : spec_float := S754_zero false.

Definition is_zero (x : spec_float) : bool :=
  match x with S754_zero _ => true | _ => false end.

Definition is_nan (x : spec_float) : bool :=
  match x with S754_nan => true | _ => false end.

(** Neither NaN nor an infinity. *)
Definition is_finite (x : spec_float) : bool :=
  match x with S754_zero _ | S754_finite _ _ _ => true | _ => false end.

(** The Python float [1e-8]: the binary64 number nearest to it,
    6044629098073146 * 2^-79. *)
Definition py_1e_8 : spec_float :=
  S754_finite false 6044629098073146 (-79).

(** A tensor: its shape and its elements in row-major order. *)
Record Tensor : Type := mkTensor { shape : list nat; data : list spec_float }.

Definition wf (t : Tensor) : Prop := length (data t) = numel (shape t).

Definition TensorMap : Type := list (string * Tensor).

(** A tensor of shape [length rows :: elem_shape], kept as its rows along
    axis 0. *)
Record Stack : Type :=
  mkStack { elem_shape : list nat; rows : list (list spec_float) }.

Record Descriptor : Type := {
  tv_model : string;
  tv_delta : Tensor;
  tv_params : list (Param.t * Qc);
  tv_sparsified_delta : option Tensor;
  tv_tall_mask : option BoolTensor
}.

Definition descriptor (model : string) (delta : Tensor)
  (ps : list (Param.t * Qc)) : Descriptor :=
  {| tv_model := model; tv_delta := delta; tv_params := ps;
     tv_sparsified_delta := None; tv_tall_mask := None |}.

Definition tv_get (p : Param.t) (tv : Descriptor) : result Qc :=
  getitem Param.eqb p (tv_params tv).

Definition first_get (p : Param.t) (tvs : list Descriptor) : result Qc :=
  match tvs with
  | tv0 :: _ => tv_get p tv0
  | nil => Err IndexError
  end.

Definition get_sparsified_delta (tv : Descriptor) : result Tensor :=
  match tv_sparsified_delta tv with Some t => Ok t | None => Err KeyError end.

Definition get_tall_mask_of (tv : Descriptor) : result BoolTensor :=
  match tv_tall_mask tv with Some t => Ok t | None => Err KeyError end.

Definition set_sparsified_delta (tv : Descriptor) (t : Tensor) : Descriptor :=
  {| tv_model := tv_model tv; tv_delta := tv_delta tv;
     tv_params := tv_params tv;
     tv_sparsified_delta := Some t; tv_tall_mask := tv_tall_mask tv |}.

Definition set_tall_mask (tv : Descriptor) (t : BoolTensor) : Descriptor :=
  {| tv_model := tv_model tv; tv_delta := tv_delta tv;
     tv_params := tv_params tv;
     tv_sparsified_delta := tv_sparsified_delta tv; tv_tall_mask := Some t |}.

(** [x[:r, :c]], as for the exact tensors. *)
Definition slice2 (x : Tensor) (r c : nat) : result Tensor :=
  match shape x with
  | s0 :: s1 :: rest =>
      let p := numel rest in
      let rows := firstn r (chunks (s1 * p) s0 (data x)) in
      Ok {| shape := Nat.min r s0 :: Nat.min c s1 :: rest;
            data := concat (map (firstn (c * p)) rows) |}
  | _ => Err IndexError
  end.

Fixpoint expand (src tgt : list nat) (d : list spec_float)
  : list spec_float :=
  match src, tgt with
  | s :: ss, t :: ts =>
      let blocks := map (expand ss ts) (chunks (numel ss) s d) in
      if (s =? t)%nat then concat blocks
      else concat (repeat (concat blocks) t)
  | _, _ => d
  end.

(** An elementwise binary operator on two tensors, with broadcasting. *)
Definition broadcast_op (f : spec_float -> spec_float -> spec_float)
  (a b : Tensor) : result Tensor :=
  match broadcast_shapes (shape a) (shape b) with
  | None => Err (RuntimeError "The size of tensor a must match the size of tensor b")
  | Some s =>
      let n := length s in
      Ok {| shape := s;
            data := zipWith f (expand (pad_shape n (shape a)) s (data a))
                              (expand (pad_shape n (shape b)) s (data b)) |}
  end.

Definition stack (ts : list Tensor) : result Stack :=
  match stack_rows (map (fun t => (shape t, data t)) ts) with
  | Ok (s, r) => Ok {| elem_shape := s; rows := r |}
  | Err e => Err e
  end.

(** The elements of the rows at position [j]. *)
Definition column (rs : list (list spec_float)) (j : nat) : list spec_float :=
  map (fun r => nth j r zero) rs.

Definition shape_at (t : Tensor) (i : nat) : result nat :=
  match nth_error (shape t) i with
  | Some n => Ok n
  | None => Err IndexError
  end.

Section Program.
(** The dtype of the tensors. *)
Variable dt : fdtype.

(** [sum(dim=0)] at one element: the floating sum of the elements it is
    given, in the order and with the intermediate precision of torch's
    reduction. *)
Variable reduce : list spec_float -> spec_float.

(** A Python number stored by [torch.tensor(..., dtype=deltas.dtype)]. *)
Variable to_dtype : Qc -> spec_float.

(** One element of [mixed_delta *= lambda_factor]. *)
Variable mul_scalar : spec_float -> Qc -> spec_float.

(** The external primitives of [mergekit.sparsify]. *)
Variable sparsify :
  Tensor -> Qc -> SparsificationMethod.t -> bool -> option Qc -> option Qc
  -> Tensor.
Variable get_tall_mask : Tensor -> Qc -> Tensor -> BoolTensor.

(** *** Scalars *)

Definition add : spec_float -> spec_float -> spec_float :=
  SFadd (prec dt) (emax dt).
Definition sub : spec_float -> spec_float -> spec_float :=
  SFsub (prec dt) (emax dt).
Definition mul : spec_float -> spec_float -> spec_float :=
  SFmul (prec dt) (emax dt).
Definition div : spec_float -> spec_float -> spec_float :=
  SFdiv (prec dt) (emax dt).

(** An integer, and a binary64 number, rounded to the dtype. *)
Definition of_int (z : Z) : spec_float :=
  binary_normalize (prec dt) (emax dt) z 0 false.

Definition round (x : spec_float) : spec_float :=
  match x with
  | S754_finite s m e => binary_round (prec dt) (emax dt) s m e
  | _ => x
  end.

Definition one : spec_float := of_int 1.

(** A boolean tensor used as a number of the dtype. *)
Definition b2f (b : bool) : spec_float := if b then one else zero.

(** The threshold of [divisor.abs() < 1e-8]: the Python float in the dtype
    of the tensor it is compared with.  It is 0 in float16. *)
Definition eps : spec_float := round py_1e_8.

(** [torch.sign] on one element, [(0 < a) - (a < 0)]: 1, -1, or 0 (also
    for NaN, which no comparison holds of). *)
Definition sign (x : spec_float) : spec_float :=
  sub (b2f (SFltb zero x)) (b2f (SFltb x zero)).

(** [x - base], [base + x] and [x * mask] on tensors. *)
Definition tsub : Tensor -> Tensor -> result Tensor := broadcast_op sub.
Definition tadd : Tensor -> Tensor -> result Tensor := broadcast_op add.

Definition bool_to_tensor (s : list nat) (bs : list bool) : Tensor :=
  {| shape := s; data := map b2f bs |}.

(** [sum(dim=0)] of rows of [m] elements. *)
Definition sum_dim0 (m : nat) (rs : list (list spec_float))
  : list spec_float :=
  map (fun j => reduce (column rs j)) (seq 0 m).

(** *** get_mask *)

(** [(s >= 0).to(mask_dtype) * 2 - 1] in the floating dtype. *)
Definition majority (b : bool) : spec_float :=
  sub (mul (b2f b) (of_int 2)) one.

(** A sign (1, -1 or 0) converted to [int8]. *)
Definition sign_int8 (x : spec_float) : Z :=
  if SFeqb x one then 1%Z
  else if SFeqb x (SFopp one) then (-1)%Z
  else 0%Z.

(** [get_mask] with a floating [mask_dtype]: every step in the dtype of
    [delta]. *)
Definition get_mask_float (delta : Stack) (method : string)
  : result (list (list bool)) :=
  let m := numel (elem_shape delta) in
  let sign := map (map sign) (rows delta) in
  if string_dec method "sum" then
    let sign_weight := sum_dim0 m (rows delta) in
    let majority_sign := map (fun s => majority (SFleb zero s)) sign_weight in
    Ok (map (fun r => zipWith SFeqb r majority_sign) sign)
  else if string_dec method "count" then
    let majority_sign :=
      map (fun s => majority (SFleb zero s)) (sum_dim0 m sign) in
    Ok (map (fun r => zipWith SFeqb r majority_sign) sign)
  else
    Err (RuntimeError
           (String.append "Unimplemented mask method "
              (String.append dquote (String.append method dquote)))).

(** [(s >= 0).to(torch.int8) * 2 - 1], in [int8]. *)
Definition majority_int8 (b : bool) : Z :=
  wrap 8 (wrap 8 ((if b then 1 else 0) * 2) - 1).

(** [get_mask] with [mask_dtype = torch.int8]: the signs and the majority
    sign are [int8], the count of signs is summed in [int64] (summed in [Z]
    and wrapped once); the sum of the deltas of the "sum" rule stays
    floating. *)
Definition get_mask_int8 (delta : Stack) (method : string)
  : result (list (list bool)) :=
  let m := numel (elem_shape delta) in
  let sign := map (map (fun x => sign_int8 (sign x))) (rows delta) in
  if string_dec method "sum" then
    let sign_weight := sum_dim0 m (rows delta) in
    let majority_sign :=
      map (fun s => majority_int8 (SFleb zero s)) sign_weight in
    Ok (map (fun r => zipWith Z.eqb r majority_sign) sign)
  else if string_dec method "count" then
    let majority_sign :=
      map (fun s => majority_int8 (0 <=? wrap 64 s)%Z)
          (sum_rows Z.add 0%Z m sign) in
    Ok (map (fun r => zipWith Z.eqb r majority_sign) sign)
  else
    Err (RuntimeError
           (String.append "Unimplemented mask method "
              (String.append dquote (String.append method dquote)))).

(** [get_mask(delta, method, mask_dtype)]; a missing [mask_dtype] is the
    dtype of [delta]. *)
Definition get_mask (delta : Stack) (method : string)
  (mask_dtype : option dtype) : result (list (list bool)) :=
  match mask_dtype with
  | Some int8 => get_mask_int8 delta method
  | Some float_dtype | None => get_mask_float delta method
  end.

(** *** get_task_vectors *)

Definition fit_to_base (wi : WeightInfo) (base : Tensor) (model : string)
  (x : Tensor) : M (option Tensor) :=
  if negb (shape_eqb (shape x) (shape base)) then
    if is_embed wi then
      b0 <- lift (shape_at base 0) ;;
      b1 <- lift (shape_at base 1) ;;
      x' <- lift (slice2 x b0 b1) ;;
      emit (Warning (submatrix_warning model (name wi))) ;;;
      ret (Some x')
    else
      emit (Warning (skip_warning model (name wi))) ;;;
      ret None
  else ret (Some x).

Definition gtv_step (wi : WeightInfo) (base_model : string) (base : Tensor)
  (tensor_parameters : ParamMap) (model : string)
  (st : list Descriptor * TensorMap) : M (list Descriptor * TensorMap) :=
  if String.eqb model base_model then ret st
  else
    x <- lift (getitem String.eqb model (snd st)) ;;
    ox <- fit_to_base wi base model x ;;
    match ox with
    | None => ret st
    | Some x =>
        delta <- lift (tsub x base) ;;
        let tensors := delitem String.eqb model (snd st) in
        ps <- lift (getitem String.eqb model tensor_parameters) ;;
        ret (fst st ++ descriptor model delta ps :: nil, tensors)
    end.

Definition get_task_vectors (wi : WeightInfo) (base_model : string)
  (tensors : TensorMap) (tensor_parameters : ParamMap)
  : M (list Descriptor * Tensor * TensorMap) :=
  let keys := map fst tensors in
  base <- lift (getitem String.eqb base_model tensors) ;;
  st <- foldM (gtv_step wi base_model base tensor_parameters) keys (nil, tensors) ;;
  ret (fst st, base, snd st).

(** *** GTATask.execute *)

(** [mixed /= divisor], the divisor with one element per element of
    [mixed] or, broadcast, a single element. *)
Definition divide (mixed divisor : list spec_float) : list spec_float :=
  match divisor with
  | d :: nil => map (fun x => div x d) mixed
  | _ => zipWith div mixed divisor
  end.

(** [deltas * weights], the weights unsqueezed to one per row. *)
Definition scale_rows (rs : list (list spec_float))
  (weights : list spec_float) : list (list spec_float) :=
  zipWith (fun r w => map (fun x => mul x w) r) rs weights.

(** [weighted_deltas * mask] and [weights * mask], row by row. *)
Definition masked_deltas (weighted_deltas : list (list spec_float))
  (mask : list (list bool)) : list (list spec_float) :=
  zipWith (zipWith (fun x b => mul x (b2f b))) weighted_deltas mask.

Definition masked_weights (weights : list spec_float)
  (mask : list (list bool)) : list (list spec_float) :=
  zipWith (fun w r => map (fun b => mul w (b2f b)) r) weights mask.

(** [divisor[divisor == 0] = 1]. *)
Definition guard_zero (divisor : list spec_float) : list spec_float :=
  map (fun d => if SFeqb d zero then one else d) divisor.

(** [weights.sum(dim=0)]: one element. *)
Definition weight_sum (weights : list spec_float) : list spec_float :=
  reduce weights :: nil.

(** [divisor[divisor.abs() < 1e-8] = 1]. *)
Definition guard_small (divisor : list spec_float) : list spec_float :=
  map (fun d => if SFltb (SFabs d) eps then one else d) divisor.

Definition sparsify_one (self : GTATask) (sm : SparsificationMethod.t)
  (tv_info : Descriptor) : M Descriptor :=
  let kw_gamma := assoc Param.eqb Param.gamma (tv_params tv_info) in
  let kw_epsilon := assoc Param.eqb Param.epsilon (tv_params tv_info) in
  d <- lift (tv_get Param.density tv_info) ;;
  emit (CallSparsify (tv_model tv_info)) ;;;
  ret (set_sparsified_delta tv_info
         (sparsify (tv_delta tv_info) d sm (rescale self) kw_gamma kw_epsilon)).

Definition raw_deltas (tvs : list Descriptor) : M (list Descriptor * Stack) :=
  emit CallStack ;;;
  deltas <- lift (stack (map tv_delta tvs)) ;;
  ret (tvs, deltas).

(** The [# sparsify] block. *)
Definition sparsify_stage (self : GTATask) (tvs : list Descriptor)
  : M (list Descriptor * Stack) :=
  match sparsification_method (method self) with
  | Some sm =>
      if negb (SparsificationMethod.eqb sm SparsificationMethod.consensus_ta)
      then
        tvs' <- mapM (sparsify_one self sm) tvs ;;
        ts <- lift (mapR get_sparsified_delta tvs') ;;
        emit CallStack ;;;
        deltas <- lift (stack ts) ;;
        ret (tvs', deltas)
      else raw_deltas tvs
  | None => raw_deltas tvs
  end.

(** The [# get sign consensus and mix deltas] block: [mixed_delta] and the
    guarded [divisor]. *)
Definition mix_stage (self : GTATask) (deltas : Stack)
  (weights : list spec_float) : M (list spec_float * list spec_float) :=
  let m := numel (elem_shape deltas) in
  let weighted_deltas := scale_rows (rows deltas) weights in
  match consensus_method (method self) with
  | Some cm =>
      emit CallGetMask ;;;
      mask <- lift (get_mask {| elem_shape := elem_shape deltas;
                                rows := weighted_deltas |}
                             (ConsensusMethod.value cm)
                             (Some (mask_dtype_of self))) ;;
      ret (sum_dim0 m (masked_deltas weighted_deltas mask),
           guard_zero (sum_dim0 m (masked_weights weights mask)))
  | None =>
      ret (sum_dim0 m weighted_deltas, guard_small (weight_sum weights))
  end.

(** The tall-mask block: the consensus mask and the trimmed mixed delta. *)
Definition tall_mask_stage (tvs : list Descriptor) (mixed_delta : Tensor)
  : M (list bool * Tensor) :=
  tvs' <- mapM (fun tv_info =>
                  lam <- lift (tv_get Param.lambda tv_info) ;;
                  emit (CallGetTallMask (tv_model tv_info)) ;;;
                  ret (set_tall_mask tv_info
                         (get_tall_mask (tv_delta tv_info) lam mixed_delta)))
               tvs ;;
  tms <- lift (mapR get_tall_mask_of tvs') ;;
  emit CallStack ;;;
  tall_masks <- lift (stack_rows (map (fun t => (bshape t, bdata t)) tms)) ;;
  kq <- lift (first_get Param.k tvs') ;;
  let consensus_mask :=
    count_at_least (numel (fst tall_masks)) (snd tall_masks) kq in
  trimmed <- lift (broadcast_op mul mixed_delta
                     (bool_to_tensor (fst tall_masks) consensus_mask)) ;;
  ret (consensus_mask, trimmed).

(** Everything from the sparsification to [mixed_delta *= lambda_factor]:
    the descriptors as they are then, and the mixed delta. *)
Definition mixed_delta_of (self : GTATask) (tvs : list Descriptor)
  : M (list Descriptor * Tensor) :=
  st <- sparsify_stage self tvs ;;
  let tvs := fst st in
  let deltas := snd st in
  ws <- lift (mapR (tv_get Param.weight) tvs) ;;
  let weights := map to_dtype ws in
  md <- mix_stage self deltas weights ;;
  let mixed_delta :=
    if normalize self then divide (fst md) (snd md) else fst md in
  mixed_delta <-
    (if is_rank_magnitude_sampling (sparsification_method (method self))
     then
       lambda_factor <- lift (first_get Param.lambda tvs) ;;
       ret (map (fun x => mul_scalar x lambda_factor) mixed_delta)
     else ret mixed_delta) ;;
  ret (tvs, {| shape := elem_shape deltas; data := mixed_delta |}).

(** Everything after the early return, for a non-empty [tvs]. *)
Definition merge (self : GTATask) (tvs : list Descriptor) (base : Tensor)
  : M Tensor :=
  r <- mixed_delta_of self tvs ;;
  mixed_delta <-
    (if is_consensus (sparsification_method (method self))
     then r' <- tall_mask_stage (fst r) (snd r) ;; ret (snd r')
     else ret (snd r)) ;;
  lift (tadd base mixed_delta).

(** [GTATask.execute(tensors)]: the merged tensor. *)
Definition execute (self : GTATask) (tensors : TensorMap) : M Tensor :=
  r <- get_task_vectors (weight_info self) (base_model self) tensors
         (tensor_parameters self) ;;
  match fst (fst r) with
  | nil => ret (snd (fst r))
  | _ :: _ => merge self (fst (fst r)) (snd (fst r))
  end.
End Program.

(** *** An instance of the parameters *)

(** The reduction that adds the elements one after the other in the dtype,
    starting from 0. *)
Definition seq_sum (dt : fdtype) (l : list spec_float) : spec_float :=
  fold_left (add dt) l zero.

(** A rational rounded to the dtype: the quotient of its numerator and
    denominator, for numbers whose numerator and denominator are
    themselves numbers of the dtype. *)
Definition of_Qc (dt : fdtype) (q : Qc) : spec_float :=
  div dt (of_int dt (Qnum q)) (of_int dt (Zpos (Qden q))).

Definition mul_Qc (dt : fdtype) (x : spec_float) (q : Qc) : spec_float :=
  mul dt x (of_Qc dt q).
End FP.

(** * Notions used to state the properties *)

(** ** Rows, columns and sums *)

(** Column [j] of a list of rows, and element [j] of row [i]. *)
Definition column {A} (d : A) (rs : list (list A)) (j : nat) : list A :=
  map (fun r => nth j r d) rs.

Definition at2 {A} (d : A) (rs : list (list A)) (i j : nat) : A :=
  nth j (nth i rs nil) d.

(** The sum of a list of rationals. *)
Definition total (l : list Qc) : Qc := fold_right Qcplus 0 l.

(** Every row has [m] elements; a stack whose rows have as many elements as
    its element shape says. *)
Definition wf_rows {A} (m : nat) (rs : list (list A)) : Prop :=
  Forall (fun r => length r = m) rs.

Definition wf_stack (s : Stack) : Prop :=
  wf_rows (numel (elem_shape s)) (rows s).

(** ** The sign vote *)

(** The quantity whose sign is the majority sign of one element, from the
    weighted deltas of all models at that element: their sum under the "sum"
    rule, the sum of their signs under the "count" rule. *)
Definition vote (cm : ConsensusMethod.t) (col : list Qc) : Qc :=
  match cm with
  | ConsensusMethod.sum => total col
  | ConsensusMethod.count => total (map sgn col)
  end.

(** Whether the sign of [x] is the sign elected by the vote [b]
    ([true] for +1, [false] for -1). *)
Definition sign_matches (x : Qc) (b : bool) : bool :=
  Qceqb (sgn x) (if b then 1 else - (1)).

(** An [int64] count of signs [z] and a floating sum of signs [q] that
    agree, the count bounded by [t]. *)
Definition sign_acc_rel (t : Z) (z : Z) (q : Qc) : Prop :=
  q = Q2Qc (inject_Z z) /\ (- t <= z <= t)%Z.

(** ** The divisor *)




(** ** Descriptors and tasks *)

(** What the sparsification loop stores on a descriptor of density [d]. *)
Definition sparsified
  (sparsify : Tensor -> Qc -> SparsificationMethod.t -> bool -> option Qc
              -> option Qc -> Tensor)
  (self : GTATask) (sm : SparsificationMethod.t) (tv : Descriptor) (d : Qc)
  : Tensor :=
  sparsify (tv_delta tv) d sm (rescale self)
           (assoc Param.eqb Param.gamma (tv_params tv))
           (assoc Param.eqb Param.epsilon (tv_params tv)).

(** Descriptors that satisfy the data model for a base tensor: every delta
    has the base's shape. *)
Definition fits (base : Tensor) (tvs : list Descriptor) : Prop :=
  Forall (fun tv => shape (tv_delta tv) = shape base /\ wf (tv_delta tv)) tvs.

(** Two descriptors for the same model that differ at most in the keys
    [sparsified_delta] and [tall_mask]. *)
Definition same_core (tv tv' : Descriptor) : Prop :=
  tv_model tv' = tv_model tv /\ tv_delta tv' = tv_delta tv /\
  tv_params tv' = tv_params tv.

(** The same task with the [int8_mask] option set to [b]. *)
Definition with_int8_mask (b : bool) (self : GTATask) : GTATask :=
  {| method := method self; base_model := base_model self;
     weight_info := weight_info self;
     tensor_parameters := tensor_parameters self;
     int8_mask := b; normalize := normalize self; rescale := rescale self |}.

(** [x - base] for tensors of one shape, and the tensor of shape [s] with
    every element 0. *)
Definition delta_of (x base : Tensor) : Tensor :=
  {| shape := shape base; data := zipWith Qcminus (data x) (data base) |}.


(** The contracts of the external primitives: both keep the shape. *)
Definition sparsify_keeps_shape
  (sparsify : Tensor -> Qc -> SparsificationMethod.t -> bool -> option Qc
              -> option Qc -> Tensor) : Prop :=
  forall t d sm r g e,
    shape (sparsify t d sm r g e) = shape t /\
    (wf t -> wf (sparsify t d sm r g e)).


(** ** Events and results *)

Definition is_warning (ev : event) : Prop :=
  match ev with Warning _ => True | _ => False end.

Definition map_result {A B} (f : A -> B) (r : result A) : result B :=
  match r with Ok a => Ok (f a) | Err e => Err e end.

(** * Concrete inputs *)

Definition qz (z : Z) : Qc := Q2Qc (inject_Z z).

(** A rank-1 tensor, and a rank-2 tensor of [r] rows and [c] columns. *)
Definition vec (l : list Z) : Tensor :=
  {| shape := length l :: nil; data := map qz l |}.

Definition mat (r c : nat) (l : list Z) : Tensor :=
  {| shape := r :: c :: nil; data := map qz l |}.

(** Stand-ins for the external primitives: a pruning that zeroes every
    element, and a tall mask that selects every element. *)
Definition sparsify_zero (t : Tensor) (_ : Qc) (_ : SparsificationMethod.t)
  (_ : bool) (_ _ : option Qc) : Tensor :=
  {| shape := shape t; data := map (fun _ => 0) (data t) |}.

Definition tall_mask_all (t : Tensor) (_ : Qc) (_ : Tensor) : BoolTensor :=
  {| bshape := shape t; bdata := map (fun _ => true) (data t) |}.

(** A task on the weight "w" with base model "base". *)
Definition gta (cm : option ConsensusMethod.t)
  (sm : option SparsificationMethod.t) : GeneralizedTaskArithmeticMerge :=
  {| consensus_method := cm; sparsification_method := sm;
     default_normalize := true; default_rescale := false;
     method_name := "gta" |}.

Definition task (cm : option ConsensusMethod.t)
  (sm : option SparsificationMethod.t) (embed i8 norm : bool)
  (ps : ParamMap) : GTATask :=
  {| method := gta cm sm; base_model := "base";
     weight_info := {| name := "w"; is_embed := embed |};
     tensor_parameters := ps;
     int8_mask := i8; normalize := norm; rescale := false |}.

(** Tensor parameters of a model: weight 1, density 1, lambda 1 and the
    given [k]. *)
Definition params_k (kz : Z) : list (Param.t * Qc) :=
  (Param.weight, qz 1) :: (Param.density, qz 1)
  :: (Param.lambda, qz 1) :: (Param.k, qz kz) :: nil.

Definition params_A : ParamMap := ("A", params_k 1) :: nil.

Definition params_AB : ParamMap :=
  ("A", params_k 3) :: ("B", params_k 3) :: nil.


(** The base tensor alone: no other model contributes. *)
Definition base_only : TensorMap :=
  ("base", vec (1 :: 2 :: 3 :: nil)%Z) :: nil.

(** The worked example of the specification: a zero base and two models
    with deltas [1,1,-1,-1] and [1,-1,1,-1]; its stack of deltas and its
    descriptors. *)
Definition two_model_tensors : TensorMap :=
  ("base", vec (0 :: 0 :: 0 :: 0 :: nil)%Z)
  :: ("A", vec (1 :: 1 :: -1 :: -1 :: nil)%Z)
  :: ("B", vec (1 :: -1 :: 1 :: -1 :: nil)%Z) :: nil.

Definition two_model_stack : Stack :=
  {| elem_shape := 4%nat :: nil;
     rows := map (map qz) ((1 :: 1 :: -1 :: -1 :: nil)
                           :: (1 :: -1 :: 1 :: -1 :: nil) :: nil)%Z |}.

Definition two_model_descriptors : list Descriptor :=
  descriptor "A" (vec (1 :: 1 :: -1 :: -1 :: nil)%Z) (params_k 3)
  :: descriptor "B" (vec (1 :: -1 :: 1 :: -1 :: nil)%Z) (params_k 3) :: nil.

(** A stack in which the first model's weighted delta is 0 at element 1. *)
Definition zero_entry_stack : Stack :=
  {| elem_shape := 2%nat :: nil;
     rows := map (map qz) ((3 :: 0 :: nil) :: (-1 :: 2 :: nil) :: nil)%Z |}.

(** One descriptor for a model "A" with delta [1, 2]. *)
Definition descriptor_A : Descriptor :=
  descriptor "A" (vec (1 :: 2 :: nil)%Z) (params_k 1).




(** Embedding tables: a base of 2 x 2 with a model of 3 x 3, and a base of
    3 x 2 with a model of 2 x 2. *)
Definition embed_base : Tensor := mat 2 2 (1 :: 2 :: 3 :: 4 :: nil)%Z.

Definition embed_large : Tensor :=
  mat 3 3 (10 :: 20 :: 30 :: 40 :: 50 :: 60 :: 70 :: 80 :: 90 :: nil)%Z.

Definition embed_base_tall : Tensor :=
  mat 3 2 (1 :: 2 :: 3 :: 4 :: 5 :: 6 :: nil)%Z.

Definition embed_small : Tensor := mat 2 2 (10 :: 20 :: 30 :: 40 :: nil)%Z.

(** * Notions used to state further properties *)

(** [l] is [l'] with some elements left out, the order kept. *)
Inductive subseq {A : Type} : list A -> list A -> Prop :=
| subseq_nil : subseq nil nil
| subseq_skip (a : A) (l l' : list A) : subseq l l' -> subseq l (a :: l')
| subseq_keep (a : A) (l l' : list A) : subseq l l' -> subseq (a :: l) (a :: l').

(** Whether [key] is the model of one of the descriptors. *)
Definition contributed (tvs : list Descriptor) (key : string) : bool :=
  existsb (String.eqb key) (map tv_model tvs).

(** The tensor parameters of [model], empty when it has none. *)
Definition params_of (tp : ParamMap) (model : string) : list (Param.t * Qc) :=
  match assoc String.eqb model tp with Some ps => ps | None => nil end.

(** The descriptor of a dictionary entry whose tensor has the base's shape. *)
Definition descriptor_of (tp : ParamMap) (base : Tensor) (kv : string * Tensor)
  : Descriptor :=
  descriptor (fst kv) (delta_of (snd kv) base) (params_of tp (fst kv)).

Definition is_other (base_model : string) (kv : string * Tensor) : bool :=
  negb (String.eqb (fst kv) base_model).

(** The inputs on which every tensor has the base's shape: a dictionary
    without repeated keys that holds the base, tensors that are well formed
    and of one shape, and tensor parameters for every other model. *)
Definition all_match (base_model : string) (base : Tensor)
  (tensors : TensorMap) (tp : ParamMap) : Prop :=
  NoDup (map fst tensors) /\
  getitem String.eqb base_model tensors = Ok base /\
  Forall (fun kv => shape (snd kv) = shape base /\ wf (snd kv)) tensors /\
  Forall (fun kv => fst kv <> base_model ->
                    exists ps, getitem String.eqb (fst kv) tp = Ok ps) tensors.

(** The sign elected at each of the [m] elements: [true] for +1. *)
Definition elected (cm : ConsensusMethod.t) (delta : Stack) : list bool :=
  map (fun j => Qcleb 0 (vote cm (column 0 (rows delta) j)))
      (seq 0 (numel (elem_shape delta))).




(** Two models that agree in sign on both elements: deltas [1, -2] and
    [3, -4]. *)
Definition unanimous_stack : Stack :=
  {| elem_shape := 2%nat :: nil;
     rows := map (map qz) ((1 :: -2 :: nil) :: (3 :: -4 :: nil) :: nil)%Z |}.

(** ** One element of the merge *)








(** ** The merge without sparsification *)

(** The entries of the dictionary other than the base, in its order, the
    stack of their deltas and their weights. *)
Definition others (base_model : string) (tensors : TensorMap) : TensorMap :=
  filter (is_other base_model) tensors.




(** ** Declared and read parameters *)



(** Parameters with a density and no weight for the model "B". *)
Definition params_B_weightless : ParamMap :=
  ("A", params_k 3) :: ("B", (Param.density, qz 1) :: nil) :: nil.

(** * Notions for the statements in floating point *)

(** The number 1 of each dtype: 2^(prec-1) * 2^(1-prec). *)
Definition one_mantissa (dt : FP.fdtype) : positive :=
  match dt with
  | FP.float16 => 1024
  | FP.bfloat16 => 128
  | FP.float32 => 8388608
  | FP.float64 => 4503599627370496
  end.

Definition one_exponent (dt : FP.fdtype) : Z :=
  match dt with
  | FP.float16 => -10
  | FP.bfloat16 => -7
  | FP.float32 => -23
  | FP.float64 => -52
  end%Z.

(** A number of the dtype: a zero, an infinity, NaN, or a finite number in
    the dtype's canonical form. *)
Definition in_dtype (dt : FP.fdtype) (x : spec_float) : Prop :=
  valid_binary (FP.prec dt) (FP.emax dt) x = true.

(** Equal as numbers, the way [==] compares two floats that are not NaN:
    the same float, or two zeros (which may differ in sign). *)
Definition same_number (x y : spec_float) : Prop :=
  x = y \/ (FP.is_zero x = true /\ FP.is_zero y = true).

(** The sign of a float as an integer: 1, -1, or 0 for the zeros and
    NaN. *)
Definition float_sign (x : spec_float) : Z :=
  if SFltb FP.zero x then 1%Z
  else if SFltb x FP.zero then (-1)%Z
  else 0%Z.

(** Whether the sign of [x] is the majority sign elected by [b] (+1 for
    [true], -1 for [false]). *)
Definition sign_is (x : spec_float) (b : bool) : bool :=
  (float_sign x =? (if b then 1 else -1))%Z.

Definition fp_wf_stack (s : FP.Stack) : Prop :=
  wf_rows (numel (FP.elem_shape s)) (FP.rows s).

(** Whether the majority sign of element [j] is +1: under "sum" the sum of
    the column, as the reduction computes it, is [>= 0]; under "count" the
    sum of the signs of the column is [>= 0], that sum being the
    reduction's in a floating mask dtype and an integer in [int8]. *)
Definition majority_positive (dt : FP.fdtype)
  (reduce : list spec_float -> spec_float) (cm : ConsensusMethod.t)
  (mask_dtype : option dtype) (rs : list (list spec_float)) (j : nat) : bool :=
  match cm with
  | ConsensusMethod.sum => SFleb FP.zero (reduce (FP.column rs j))
  | ConsensusMethod.count =>
      match mask_dtype with
      | Some int8 =>
          (0 <=? fold_right Z.add 0 (map float_sign (FP.column rs j)))%Z
      | _ => SFleb FP.zero (reduce (map (FP.sign dt) (FP.column rs j)))
      end
  end.

(** What [divisor[divisor == 0] = 1] does to one element, and what
    [divisor[divisor.abs() < 1e-8] = 1] does, the threshold being
    [FP.eps], the Python float 1e-8 rounded to the dtype. *)
Definition fp_zero_guarded (dt : FP.fdtype) (raw d : spec_float) : Prop :=
  (FP.is_zero raw = true -> d = FP.one dt) /\
  (FP.is_zero raw = false -> d = raw).

Definition fp_small_guarded (dt : FP.fdtype) (raw d : spec_float) : Prop :=
  (SFltb (SFabs raw) (FP.eps dt) = true -> d = FP.one dt) /\
  (SFltb (SFabs raw) (FP.eps dt) = false -> d = raw).

(** The divisor of [FP.mix_stage] before its guard. *)
Definition fp_raw_divisor (dt : FP.fdtype)
  (reduce : list spec_float -> spec_float) (self : GTATask)
  (deltas : FP.Stack) (weights : list spec_float)
  : result (list spec_float) :=
  match consensus_method (method self) with
  | Some cm =>
      match FP.get_mask dt reduce
              {| FP.elem_shape := FP.elem_shape deltas;
                 FP.rows := FP.scale_rows dt (FP.rows deltas) weights |}
              (ConsensusMethod.value cm) (Some (mask_dtype_of self)) with
      | Ok mask =>
          Ok (FP.sum_dim0 reduce (numel (FP.elem_shape deltas))
                (FP.masked_weights dt weights mask))
      | Err e => Err e
      end
  | None => Ok (FP.weight_sum reduce weights)
  end.

(** A reduction that gives a zero on zeros, and one that gives a single
    element back (as a number). *)
Definition sums_zeros (reduce : list spec_float -> spec_float) : Prop :=
  forall l, Forall (fun x => FP.is_zero x = true) l ->
            FP.is_zero (reduce l) = true.

Definition sums_singleton (reduce : list spec_float -> spec_float) : Prop :=
  forall x, same_number (reduce (x :: nil)) x.

(** Descriptors that satisfy the data model for a base tensor, and
    descriptors that differ at most in the keys [sparsified_delta] and
    [tall_mask]. *)
Definition fp_fits (base : FP.Tensor) (tvs : list FP.Descriptor) : Prop :=
  Forall (fun tv => FP.shape (FP.tv_delta tv) = FP.shape base /\
                    FP.wf (FP.tv_delta tv)) tvs.

Definition fp_same_core (tv tv' : FP.Descriptor) : Prop :=
  FP.tv_model tv' = FP.tv_model tv /\ FP.tv_delta tv' = FP.tv_delta tv /\
  FP.tv_params tv' = FP.tv_params tv.

(** The contracts of the external primitives: both keep the shape. *)
Definition fp_sparsify_keeps_shape
  (sparsify : FP.Tensor -> Qc -> SparsificationMethod.t -> bool -> option Qc
              -> option Qc -> FP.Tensor) : Prop :=
  forall t d sm r g e,
    FP.shape (sparsify t d sm r g e) = FP.shape t /\
    (FP.wf t -> FP.wf (sparsify t d sm r g e)).

Definition fp_tall_mask_keeps_shape
  (get_tall_mask : FP.Tensor -> Qc -> FP.Tensor -> BoolTensor) : Prop :=
  forall delta lam mixed,
    bshape (get_tall_mask delta lam mixed) = FP.shape delta /\
    (FP.wf delta ->
     length (bdata (get_tall_mask delta lam mixed)) = numel (FP.shape delta)).

(** ** Concrete inputs in floating point *)

(** A rank-1 tensor of integers of the dtype. *)
Definition fvec (dt : FP.fdtype) (l : list Z) : FP.Tensor :=
  {| FP.shape := length l :: nil; FP.data := map (FP.of_int dt) l |}.

(** Stand-ins for the external primitives: a pruning that keeps every
    element, and a tall mask that selects every element. *)
Definition sparsify_keep (t : FP.Tensor) (_ : Qc)
  (_ : SparsificationMethod.t) (_ : bool) (_ _ : option Qc) : FP.Tensor := t.

Definition fp_tall_mask_all (t : FP.Tensor) (_ : Qc) (_ : FP.Tensor)
  : BoolTensor :=
  {| bshape := FP.shape t; bdata := map (fun _ => true) (FP.data t) |}.

(** [execute] with the sequential reduction and these stand-ins. *)
Definition run (dt : FP.fdtype) (self : GTATask) (tensors : FP.TensorMap)
  : result FP.Tensor :=
  fst (FP.execute dt (FP.seq_sum dt) (FP.of_Qc dt) (FP.mul_Qc dt)
         sparsify_keep fp_tall_mask_all self tensors).

(** Tensor parameters of the models "A" and "B" with the given weights,
    density 1, lambda 1 and [k] 3. *)
Definition params_weights (wa wb : Z) : ParamMap :=
  ("A", (Param.weight, qz wa) :: (Param.density, qz 1)
        :: (Param.lambda, qz 1) :: (Param.k, qz 3) :: nil)
  :: ("B", (Param.weight, qz wb) :: (Param.density, qz 1)
           :: (Param.lambda, qz 1) :: (Param.k, qz 3) :: nil) :: nil.

(** A one-element stack of the given integers, one per model. *)
Definition fcolumn (dt : FP.fdtype) (l : list Z) : FP.Stack :=
  {| FP.elem_shape := 1%nat :: nil;
     FP.rows := map (fun z => FP.of_int dt z :: nil) l |}.
(** * Properties *)

(** ** Scalars *)

Lemma Qceqb_eq (x y : Qc) : Qceqb x y = true <-> x = y.
Proof.
  unfold Qceqb. rewrite Qceq_alt. destruct (x ?= y); split; congruence.
Qed.

Lemma Qcleb_le (x y : Qc) : Qcleb x y = true <-> x <= y.
Proof.
  unfold Qcleb. rewrite Qcle_alt. destruct (x ?= y); split; congruence.
Qed.


Lemma Qcleb_gt (x y : Qc) : Qcleb x y = false <-> y < x.
Proof.
  split; intro H.
  - apply Qcnot_le_lt. intro Hle. apply Qcleb_le in Hle. congruence.
  - destruct (Qcleb x y) eqn:E; auto.
    apply Qcleb_le in E. exfalso. exact (Qclt_not_le _ _ H E).
Qed.

Lemma Qceqb_neq (x y : Qc) : Qceqb x y = false <-> x <> y.
Proof.
  split; intro H.
  - intro E. apply Qceqb_eq in E. congruence.
  - destruct (Qceqb x y) eqn:E; auto. apply Qceqb_eq in E. contradiction.
Qed.

Lemma sgn_zero : sgn 0 = 0.
Proof. reflexivity. Qed.

Lemma sgn_cases (x : Qc) :
  (x < 0 /\ sgn x = - (1)) \/ (x = 0 /\ sgn x = 0) \/ (0 < x /\ sgn x = 1).
Proof.
  unfold sgn. destruct (x ?= 0) eqn:E.
  - right; left. split; [now apply Qceq_alt | reflexivity].
  - left. split; [now apply Qclt_alt | reflexivity].
  - right; right. split; [now apply Qcgt_alt | reflexivity].
Qed.


(** ** Lists *)

Lemma zipWith_length {A B C} (f : A -> B -> C) (l : list A) (l' : list B) :
  length (zipWith f l l') = Nat.min (length l) (length l').
Proof.
  revert l'. induction l as [|a l IH]; intros [|b l']; simpl; auto.
Qed.

Lemma zipWith_nth {A B C} (f : A -> B -> C) (l : list A) (l' : list B)
  (i : nat) (da : A) (db : B) (dc : C) :
  (i < length l)%nat -> (i < length l')%nat ->
  nth i (zipWith f l l') dc = f (nth i l da) (nth i l' db).
Proof.
  revert l' i. induction l as [|a l IH]; intros [|b l'] [|i]; simpl;
    intros; try lia; auto.
  apply IH; lia.
Qed.

Lemma fold_left_Qcplus (l : list Qc) (a : Qc) :
  fold_left Qcplus l a = a + total l.
Proof.
  revert a. induction l as [|x l IH]; intro a; simpl.
  - unfold total; simpl. ring.
  - rewrite IH. unfold total; simpl. ring.
Qed.

(** [sum(dim=0)] read column by column. *)
Lemma fold_zipWith_length {A B} (add : B -> A -> B) (m : nat)
  (rs : list (list A)) (a : list B) :
  wf_rows m rs -> length a = m ->
  length (fold_left (zipWith add) rs a) = m.
Proof.
  intros Hrs. revert a. induction Hrs as [|r rs Hr Hrs IH]; intros a Ha; simpl.
  - exact Ha.
  - apply IH. rewrite zipWith_length. lia.
Qed.

Lemma fold_zipWith_nth {A B} (add : B -> A -> B) (m : nat)
  (rs : list (list A)) (a : list B) (j : nat) (da : A) (db : B) :
  wf_rows m rs -> length a = m -> (j < m)%nat ->
  nth j (fold_left (zipWith add) rs a) db
  = fold_left add (column da rs j) (nth j a db).
Proof.
  intros Hrs. revert a. induction Hrs as [|r rs Hr Hrs IH]; intros a Ha Hj; simpl.
  - reflexivity.
  - rewrite IH; [|rewrite zipWith_length; lia|exact Hj].
    f_equal. apply zipWith_nth; lia.
Qed.

Lemma sum_rows_length {A B} (add : B -> A -> B) (zero : B) (m : nat)
  (rs : list (list A)) :
  wf_rows m rs -> length (sum_rows add zero m rs) = m.
Proof.
  intro H. unfold sum_rows. apply fold_zipWith_length; auto.
  apply repeat_length.
Qed.

Lemma sum_rows_nth {A B} (add : B -> A -> B) (zero : B) (m : nat)
  (rs : list (list A)) (j : nat) (da : A) (db : B) :
  wf_rows m rs -> (j < m)%nat ->
  nth j (sum_rows add zero m rs) db = fold_left add (column da rs j) zero.
Proof.
  intros H Hj. unfold sum_rows.
  rewrite (fold_zipWith_nth add m rs (repeat zero m) j da db H); auto.
  - f_equal. apply nth_repeat_lt; exact Hj.
  - apply repeat_length.
Qed.

Lemma sum_dim0_nth (m : nat) (rs : list (list Qc)) (j : nat) :
  wf_rows m rs -> (j < m)%nat ->
  nth j (sum_dim0 m rs) 0 = total (column 0 rs j).
Proof.
  intros H Hj. unfold sum_dim0.
  rewrite (sum_rows_nth Qcplus 0 m rs j 0 0 H Hj), fold_left_Qcplus. ring.
Qed.

(** ** The mask in either dtype *)

Lemma float_elt_matches (x : Qc) (b : bool) :
  elt_eqb (cast (T := Qc) (sgn x)) (mul2_sub1 (of_bool b)) = sign_matches x b.
Proof.
  unfold sign_matches. simpl. f_equal. destruct b; apply Qc_is_canon; reflexivity.
Qed.

Lemma int8_elt_matches (x : Qc) (b : bool) :
  elt_eqb (cast (T := Z) (sgn x)) (mul2_sub1 (of_bool b)) = sign_matches x b.
Proof.
  unfold sign_matches.
  destruct (sgn_cases x) as [[H E]|[[H E]|[H E]]]; rewrite E;
    destruct b; reflexivity.
Qed.

Lemma int8_cast_sgn (x : Qc) :
  sgn x = Q2Qc (inject_Z (cast (T := Z) (sgn x))) /\
  (-1 <= cast (T := Z) (sgn x) <= 1)%Z.
Proof.
  destruct (sgn_cases x) as [[H E]|[[H E]|[H E]]]; rewrite E; split;
    try (apply Qc_is_canon; reflexivity); simpl; vm_compute; split; discriminate.
Qed.

Lemma zipWith_map {A A' B B' C} (f : A' -> B' -> C) (g : A -> A') (h : B -> B')
  (l : list A) (l' : list B) :
  zipWith f (map g l) (map h l') = zipWith (fun a b => f (g a) (h b)) l l'.
Proof.
  revert l'. induction l as [|a l IH]; intros [|b l']; simpl; auto.
  now rewrite IH.
Qed.

Lemma zipWith_ext {A B C} (f g : A -> B -> C) (l : list A) (l' : list B) :
  (forall a b, f a b = g a b) -> zipWith f l l' = zipWith g l l'.
Proof.
  intro H. revert l'. induction l as [|a l IH]; intros [|b l']; simpl; auto.
  now rewrite H, IH.
Qed.

Lemma float_row_matches {S} (p : S -> bool) (r : list Qc) (accs : list S) :
  zipWith elt_eqb (map (fun x => cast (T := Qc) (sgn x)) r)
          (map (fun s => mul2_sub1 (of_bool (p s))) accs)
  = zipWith sign_matches r (map p accs).
Proof.
  rewrite <- (map_id r) at 2. rewrite !zipWith_map.
  apply zipWith_ext. intros x s. apply float_elt_matches.
Qed.

Lemma int8_row_matches {S} (p : S -> bool) (r : list Qc) (accs : list S) :
  zipWith elt_eqb (map (fun x => cast (T := Z) (sgn x)) r)
          (map (fun s => mul2_sub1 (of_bool (p s))) accs)
  = zipWith sign_matches r (map p accs).
Proof.
  rewrite <- (map_id r) at 2. rewrite !zipWith_map.
  apply zipWith_ext. intros x s. apply int8_elt_matches.
Qed.

Lemma wrap64_small (z : Z) :
  (- 2 ^ 63 <= z < 2 ^ 63)%Z -> wrap 64 z = z.
Proof.
  intro H. unfold wrap.
  change (64 - 1)%Z with 63%Z.
  rewrite Z.mod_small; lia.
Qed.


Lemma Q2Qc_inject_add (a b : Z) :
  Q2Qc (inject_Z a) + Q2Qc (inject_Z b) = Q2Qc (inject_Z (a + b)).
Proof.
  unfold Qcplus. apply Q2Qc_eq_iff. cbn [this Q2Qc].
  rewrite !Qred_correct, inject_Z_plus. reflexivity.
Qed.

Lemma sign_acc_step (t : Z) (aZ : list Z) (aQ : list Qc) (r : list Qc) :
  Forall2 (sign_acc_rel t) aZ aQ ->
  Forall2 (sign_acc_rel (t + 1))
          (zipWith Z.add aZ (map (fun x => cast (T := Z) (sgn x)) r))
          (zipWith Qcplus aQ (map (fun x => cast (T := Qc) (sgn x)) r)).
Proof.
  intro H. revert r. induction H as [|z q aZ aQ [Hq Hz] H IH]; intros [|x r]; simpl;
    try constructor.
  - destruct (int8_cast_sgn x) as [E B]. split.
    + rewrite Hq. rewrite E at 1. apply Q2Qc_inject_add.
    + simpl in B. lia.
  - apply IH.
Qed.

Lemma sign_acc_fold (rs : list (list Qc)) (t : Z) (aZ : list Z) (aQ : list Qc) :
  Forall2 (sign_acc_rel t) aZ aQ ->
  Forall2 (sign_acc_rel (t + Z.of_nat (length rs)))
          (fold_left (zipWith Z.add)
             (map (map (fun x => cast (T := Z) (sgn x))) rs) aZ)
          (fold_left (zipWith Qcplus)
             (map (map (fun x => cast (T := Qc) (sgn x))) rs) aQ).
Proof.
  revert t aZ aQ. induction rs as [|r rs IH]; intros t aZ aQ H.
  - simpl. rewrite Z.add_0_r. exact H.
  - cbn [map fold_left length].
    replace (t + Z.of_nat (S (length rs)))%Z with (t + 1 + Z.of_nat (length rs))%Z by lia.
    apply IH. apply sign_acc_step. exact H.
Qed.

Lemma sign_acc_ge0 (t : Z) (aZ : list Z) (aQ : list Qc) :
  (t < 2 ^ 63)%Z ->
  Forall2 (sign_acc_rel t) aZ aQ ->
  map (acc_ge0 (T := Z)) aZ = map (acc_ge0 (T := Qc)) aQ.
Proof.
  intros Ht H. induction H as [|z q aZ aQ [Hq Hz] H IH]; cbn [map]; auto.
  rewrite IH. f_equal. cbn [acc_ge0 int8_mask_dtype float_mask].
  rewrite wrap64_small by lia. subst q.
  destruct (Qcleb 0 (Q2Qc (inject_Z z))) eqn:E.
  - apply Qcleb_le in E. apply Z.leb_le.
    unfold Qcle in E. cbn [this Q2Qc] in E. rewrite !Qred_correct in E.
    change (inject_Z 0 <= inject_Z z)%Q in E.
    rewrite <- Zle_Qle in E. exact E.
  - apply Qcleb_gt in E. apply Z.leb_gt.
    unfold Qclt in E. cbn [this Q2Qc] in E. rewrite !Qred_correct in E.
    change (inject_Z z < inject_Z 0)%Q in E.
    rewrite <- Zlt_Qlt in E. exact E.
Qed.

Lemma get_mask_int8_float (delta : Stack) (method : string) :
  (Z.of_nat (length (rows delta)) < 2 ^ 63)%Z ->
  get_mask_in (T := Z) delta method = get_mask_in (T := Qc) delta method.
Proof.
  intro Hn. unfold get_mask_in.
  destruct (string_dec method "sum") as [_|_].
  - f_equal. rewrite !map_map. apply map_ext. intro r.
    rewrite int8_row_matches, float_row_matches. reflexivity.
  - destruct (string_dec method "count") as [_|_]; [|reflexivity].
    f_equal. rewrite !map_map. apply map_ext. intro r.
    rewrite int8_row_matches, float_row_matches. f_equal.
    unfold sum_rows.
    apply (sign_acc_ge0 (0 + Z.of_nat (length (rows delta)))); [lia|].
    apply sign_acc_fold.
    induction (numel (elem_shape delta)); simpl; constructor; auto.
    split; [apply Qc_is_canon; reflexivity|lia].
Qed.

Lemma column_map {A B} (f : A -> B) (da : A) (rs : list (list A)) (j : nat) (m : nat) :
  wf_rows m rs -> (j < m)%nat ->
  column (f da) (map (map f) rs) j = map f (column da rs j).
Proof.
  intros H Hj. unfold column. rewrite !map_map. apply map_ext_in.
  intros r Hr. apply map_nth.
Qed.

Lemma wf_rows_map {A B} (f : A -> B) (m : nat) (rs : list (list A)) :
  wf_rows m rs -> wf_rows m (map (map f) rs).
Proof.
  unfold wf_rows. rewrite Forall_map. apply Forall_impl.
  intros r Hr. now rewrite length_map.
Qed.

Lemma wf_rows_nth {A} (m : nat) (rs : list (list A)) (i : nat) :
  wf_rows m rs -> (i < length rs)%nat -> length (nth i rs nil) = m.
Proof.
  intros H Hi. unfold wf_rows in H. rewrite Forall_forall in H.
  apply H. apply nth_In. exact Hi.
Qed.

(** The mask computed in the floating dtype, element by element. *)
Lemma get_mask_float_at (delta : Stack) (cm : ConsensusMethod.t) :
  wf_stack delta ->
  exists mask,
    get_mask_in (T := Qc) delta (ConsensusMethod.value cm) = Ok mask /\
    length mask = length (rows delta) /\
    wf_rows (numel (elem_shape delta)) mask /\
    forall i j,
      (i < length (rows delta))%nat -> (j < numel (elem_shape delta))%nat ->
      at2 false mask i j
      = sign_matches (at2 0 (rows delta) i j)
                     (Qcleb 0 (vote cm (column 0 (rows delta) j))).
Proof.
  intro Hwf. unfold wf_stack in Hwf.
  set (m := numel (elem_shape delta)) in *.
  set (accs := match cm with
               | ConsensusMethod.sum => sum_dim0 m (rows delta)
               | ConsensusMethod.count => sum_dim0 m (map (map sgn) (rows delta))
               end).
  assert (Hlen : length accs = m).
  { destruct cm; unfold accs, sum_dim0; apply sum_rows_length; auto.
    now apply wf_rows_map. }
  assert (Hacc : forall j, (j < m)%nat ->
                           nth j accs 0 = vote cm (column 0 (rows delta) j)).
  { intros j Hj. destruct cm; unfold accs, vote.
    - rewrite sum_dim0_nth; auto using wf_rows_map.
      f_equal. rewrite <- (column_map sgn 0 (rows delta) j m); auto.
    - apply sum_dim0_nth; auto. }
  exists (map (fun r => zipWith sign_matches r (map (Qcleb 0) accs)) (rows delta)).
  repeat split.
  - unfold get_mask_in. fold m.
    destruct cm; simpl ConsensusMethod.value.
    + destruct (string_dec "count" "sum") as [E|_]; [discriminate E|].
      destruct (string_dec "count" "count") as [_|E]; [|contradiction].
      f_equal. rewrite map_map. apply map_ext. intro r.
      rewrite (float_row_matches (fun s => acc_ge0 s)). reflexivity.
    + destruct (string_dec "sum" "sum") as [_|E]; [|contradiction].
      f_equal. rewrite map_map. apply map_ext. intro r.
      rewrite (float_row_matches (fun s => Qcleb 0 s)). reflexivity.
  - apply length_map.
  - unfold wf_rows. rewrite Forall_map. unfold wf_rows in Hwf.
    revert Hwf. apply Forall_impl. intros r Hr.
    rewrite zipWith_length, length_map. lia.
  - intros i j Hi Hj. unfold at2.
    change (@nil bool) with ((fun r => zipWith sign_matches r (map (Qcleb 0) accs)) nil).
    rewrite map_nth.
    rewrite (zipWith_nth sign_matches _ _ j 0 false false).
    + f_equal. change false with (Qcleb 0 (- (1))) at 1.
      rewrite map_nth. rewrite <- Hacc; auto.
      f_equal. apply nth_indep. lia.
    + rewrite (wf_rows_nth m); auto.
    + rewrite length_map. lia.
Qed.

Lemma get_mask_any_dtype (delta : Stack) (method : string) (dt : option dtype) :
  (dt = Some int8 -> (Z.of_nat (length (rows delta)) < 2 ^ 63)%Z) ->
  get_mask delta method dt = get_mask_in (T := Qc) delta method.
Proof.
  intro H. destruct dt as [[|]|]; simpl; auto.
  apply get_mask_int8_float. auto.
Qed.

Lemma sign_matches_true (x : Qc) (b : bool) :
  sign_matches x b = true <-> sgn x = (if b then 1 else - (1)).
Proof. apply Qceqb_eq. Qed.

(** ** Claims about get_mask *)



(** C8: a consensus method other than "sum" and "count" makes [get_mask]
    raise, whatever the mask dtype, and the error aborts the caller: no rule
    is applied by default. *)
Theorem get_mask_unknown_method (delta : Stack) (method : string)
  (dt : option dtype) :
  method <> "sum" -> method <> "count" ->
  get_mask delta method dt
  = Err (RuntimeError
           (String.append "Unimplemented mask method "
              (String.append dquote (String.append method dquote)))) /\
  forall (B : Type) (rest : list (list bool) -> M B),
    fst (mask <- lift (get_mask delta method dt) ;; rest mask)
    = Err (RuntimeError
             (String.append "Unimplemented mask method "
                (String.append dquote (String.append method dquote)))).
Proof.
  intros Hs Hc.
  assert (E : get_mask delta method dt
              = Err (RuntimeError
                       (String.append "Unimplemented mask method "
                          (String.append dquote (String.append method dquote))))).
  { destruct dt as [[|]|]; unfold get_mask, get_mask_in;
      destruct (string_dec method "sum"); try contradiction;
      destruct (string_dec method "count"); try contradiction; reflexivity. }
  split; [exact E|]. intros B rest. rewrite E. reflexivity.
Qed.

Lemma get_mask_unknown_method_witness :
  get_mask two_model_stack "median" None
  = Err (RuntimeError
           (String.append "Unimplemented mask method "
              (String.append dquote (String.append "median" dquote)))) /\
  forall (B : Type) (rest : list (list bool) -> M B),
    fst (mask <- lift (get_mask two_model_stack "median" None) ;; rest mask)
    = Err (RuntimeError
             (String.append "Unimplemented mask method "
                (String.append dquote (String.append "median" dquote)))).
Proof.
  apply (get_mask_unknown_method two_model_stack "median" None); discriminate.
Defined.

Lemma at2_zipWith {A B C} (f : A -> B -> C) (da : A) (db : B) (dc : C)
  (rs : list (list A)) (rs' : list (list B)) (m i j : nat) :
  wf_rows m rs -> wf_rows m rs' ->
  (i < length rs)%nat -> (i < length rs')%nat -> (j < m)%nat ->
  at2 dc (zipWith (zipWith f) rs rs') i j = f (at2 da rs i j) (at2 db rs' i j).
Proof.
  intros H H' Hi Hi' Hj. unfold at2.
  rewrite (zipWith_nth (zipWith f) rs rs' i nil nil nil Hi Hi').
  apply zipWith_nth; rewrite (wf_rows_nth m); auto.
Qed.

(** C10: where a model's weighted delta is exactly 0, the mask excludes the
    model under both rules, and the element adds 0 to the mixed delta and 0
    to the divisor. *)
Theorem zero_delta_excluded (weighted_deltas : Stack) (cm : ConsensusMethod.t)
  (dt : option dtype) (weights : list Qc) (i j : nat) :
  wf_stack weighted_deltas ->
  (dt = Some int8 -> (Z.of_nat (length (rows weighted_deltas)) < 2 ^ 63)%Z) ->
  length weights = length (rows weighted_deltas) ->
  (i < length (rows weighted_deltas))%nat ->
  (j < numel (elem_shape weighted_deltas))%nat ->
  at2 0 (rows weighted_deltas) i j = 0 ->
  exists mask,
    get_mask weighted_deltas (ConsensusMethod.value cm) dt = Ok mask /\
    at2 false mask i j = false /\
    at2 0 (masked_deltas (rows weighted_deltas) mask) i j = 0 /\
    at2 0 (masked_weights weights mask) i j = 0.
Proof.
  intros Hwf Hn Hw Hi Hj Hz.
  destruct (get_mask_float_at weighted_deltas cm Hwf) as (mask & Hm & Hlen & Hwfm & Hat).
  exists mask. rewrite get_mask_any_dtype by exact Hn.
  assert (Hf : at2 false mask i j = false).
  { rewrite (Hat i j Hi Hj), Hz. unfold sign_matches. rewrite sgn_zero.
    destruct (Qcleb 0 _); reflexivity. }
  repeat split; auto.
  - unfold masked_deltas.
    rewrite (at2_zipWith _ 0 false 0 _ _ (numel (elem_shape weighted_deltas)));
      auto; try lia.
    rewrite Hf. simpl. ring.
  - unfold masked_weights, at2.
    rewrite (zipWith_nth _ weights mask i 0 nil nil) by lia.
    rewrite (nth_indep _ 0 ((fun b => nth i weights 0 * b2q b) false))
      by (rewrite length_map, (wf_rows_nth _ mask i Hwfm); lia).
    rewrite (map_nth (fun b => nth i weights 0 * b2q b)).
    unfold at2 in Hf. rewrite Hf. simpl. ring.
Qed.

Lemma zero_delta_excluded_witness :
  exists mask,
    get_mask zero_entry_stack "count" (Some int8) = Ok mask /\
    at2 false mask 0 1 = false /\
    at2 0 (masked_deltas (rows zero_entry_stack) mask) 0 1 = 0 /\
    at2 0 (masked_weights (qz 1 :: qz 2 :: nil) mask) 0 1 = 0.
Proof.
  apply (zero_delta_excluded zero_entry_stack ConsensusMethod.count (Some int8)).
  - repeat constructor.
  - intros _. reflexivity.
  - reflexivity.
  - simpl. lia.
  - simpl. lia.
  - reflexivity.
Defined.

(** ** Tensors of equal shape *)

Lemma chunks_length {A} (k n : nat) (l : list A) : length (chunks k n l) = n.
Proof.
  revert l. induction n as [|n IH]; intro l; simpl; auto.
Qed.

Lemma chunks_wf {A} (k n : nat) (l : list A) :
  length l = (n * k)%nat -> wf_rows k (chunks k n l).
Proof.
  revert l. induction n as [|n IH]; intros l H; simpl; constructor.
  - rewrite length_firstn. lia.
  - apply IH. rewrite length_skipn. lia.
Qed.

Lemma chunks_concat {A} (k n : nat) (l : list A) :
  length l = (n * k)%nat -> concat (chunks k n l) = l.
Proof.
  revert l. induction n as [|n IH]; intros l H; simpl.
  - destruct l; [reflexivity|discriminate].
  - rewrite IH by (rewrite length_skipn; lia). apply firstn_skipn.
Qed.

Lemma expand_same (s : list nat) (d : list Qc) :
  length d = numel s -> expand s s d = d.
Proof.
  revert d. induction s as [|x s IH]; intros d H; simpl; auto.
  rewrite Nat.eqb_refl. simpl in H.
  rewrite (map_ext_in _ (fun c => c)).
  - rewrite map_id. apply chunks_concat. exact H.
  - intros c Hc. apply IH.
    pose proof (chunks_wf (numel s) x d H) as Hwf.
    unfold wf_rows in Hwf. rewrite Forall_forall in Hwf. auto.
Qed.

Lemma broadcast_rev_same (s : list nat) : broadcast_rev s s = Some s.
Proof.
  induction s as [|x s IH]; simpl; auto.
  now rewrite IH, Nat.eqb_refl.
Qed.

Lemma broadcast_shapes_same (s : list nat) : broadcast_shapes s s = Some s.
Proof.
  unfold broadcast_shapes. rewrite broadcast_rev_same. simpl.
  now rewrite rev_involutive.
Qed.

Lemma pad_shape_same (s : list nat) : pad_shape (length s) s = s.
Proof.
  unfold pad_shape. now rewrite Nat.sub_diag.
Qed.

(** On operands of one shape a broadcasting operator is elementwise. *)
Lemma broadcast_op_same (f : Qc -> Qc -> Qc) (a b : Tensor) :
  shape a = shape b -> wf a -> wf b ->
  broadcast_op f a b
  = Ok {| shape := shape b; data := zipWith f (data a) (data b) |}.
Proof.
  intros Hs Ha Hb. unfold broadcast_op, wf in *. rewrite Hs in *.
  rewrite broadcast_shapes_same, pad_shape_same.
  now rewrite !expand_same.
Qed.

(** ** The call monad *)

Lemma bind_ret {A B} (a : A) (f : A -> M B) : bind (ret a) f = f a.
Proof. unfold bind, ret. simpl. now destruct (f a). Qed.

Lemma bind_lift_ok {A B} (a : A) (f : A -> M B) : bind (lift (Ok a)) f = f a.
Proof. apply bind_ret. Qed.

Lemma bind_emit {B} (ev : event) (f : unit -> M B) :
  bind (emit ev) f = (fst (f tt), ev :: snd (f tt)).
Proof. reflexivity. Qed.

Lemma fst_bind {A B} (m : M A) (f : A -> M B) (a : A) :
  fst m = Ok a -> fst (bind m f) = fst (f a).
Proof. destruct m as [[a'|e] l]; simpl; intro H; inversion H; reflexivity. Qed.

Lemma fst_bind_err {A B} (m : M A) (f : A -> M B) (e : error) :
  fst m = Err e -> fst (bind m f) = Err e.
Proof. destruct m as [[a'|e'] l]; simpl; intro H; inversion H; reflexivity. Qed.

Lemma bind_ext {A B} (m : M A) (f g : A -> M B) :
  (forall a, fst m = Ok a -> f a = g a) -> bind m f = bind m g.
Proof.
  intro H. destruct m as [[a|e] l]; simpl; auto.
  now rewrite (H a eq_refl).
Qed.

Lemma bind_log {A B} (P : event -> Prop) (m : M A) (f : A -> M B) :
  Forall P (snd m) -> (forall a, Forall P (snd (f a))) ->
  Forall P (snd (bind m f)).
Proof.
  intros Hm Hf. destruct m as [[a|e] l]; simpl in *; auto.
  apply Forall_app. auto.
Qed.

Ltac log_step :=
  repeat first
    [ apply Forall_nil
    | apply bind_log; [|intro]
    | match goal with
      | |- Forall _ (snd (lift _)) => apply Forall_nil
      | |- Forall _ (snd (ret _)) => apply Forall_nil
      | |- Forall _ (snd (emit _)) => repeat constructor
      | |- Forall _ (snd (if ?b then _ else _)) => destruct b
      | |- Forall _ (snd (match ?o with Some _ => _ | None => _ end)) =>
          destruct o
      end ].

(** ** get_task_vectors *)

Lemma fit_to_base_log (wi : WeightInfo) (base : Tensor) (model : string)
  (x : Tensor) : Forall is_warning (snd (fit_to_base wi base model x)).
Proof. unfold fit_to_base. log_step. Qed.

Lemma gtv_step_log (wi : WeightInfo) (base_model : string) (base : Tensor)
  (tp : ParamMap) (model : string) (st : list Descriptor * TensorMap) :
  Forall is_warning (snd (gtv_step wi base_model base tp model st)).
Proof.
  unfold gtv_step. log_step. apply fit_to_base_log.
Qed.

Lemma foldM_log {A S} (P : event -> Prop) (f : A -> S -> M S) (l : list A) (s : S) :
  (forall a s, Forall P (snd (f a s))) -> Forall P (snd (foldM f l s)).
Proof.
  intro H. revert s. induction l as [|a l IH]; intro s; simpl.
  - constructor.
  - apply bind_log; auto.
Qed.

(** [get_task_vectors] writes warnings and calls none of the later stages. *)
Lemma get_task_vectors_log (wi : WeightInfo) (base_model : string)
  (tensors : TensorMap) (tp : ParamMap) :
  Forall is_warning (snd (get_task_vectors wi base_model tensors tp)).
Proof.
  unfold get_task_vectors. log_step.
  apply foldM_log. intros. apply gtv_step_log.
Qed.

(** ** Claims about execute *)

(** C9: when extraction yields no descriptor, [execute] returns the base
    tensor unchanged, and the call has run none of the sparsification,
    masking, aggregation and tall-mask stages: its events are the warnings of
    the extraction and nothing else. *)
Theorem execute_no_descriptors
  (sparsify : Tensor -> Qc -> SparsificationMethod.t -> bool -> option Qc
              -> option Qc -> Tensor)
  (get_tall_mask : Tensor -> Qc -> Tensor -> BoolTensor)
  (self : GTATask) (tensors : TensorMap) (base : Tensor)
  (tensors' : TensorMap) (log : list event) :
  get_task_vectors (weight_info self) (base_model self) tensors
                   (tensor_parameters self)
  = (Ok (nil, base, tensors'), log) ->
  execute sparsify get_tall_mask self tensors = (Ok base, log) /\
  Forall is_warning log.
Proof.
  intro H. split.
  - unfold execute. rewrite H. simpl. now rewrite app_nil_r.
  - change log with (snd (Ok (@nil Descriptor, base, tensors'), log)).
    rewrite <- H. apply get_task_vectors_log.
Qed.

Lemma execute_no_descriptors_witness :
  execute sparsify_zero tall_mask_all
          (task (Some ConsensusMethod.sum)
                (Some SparsificationMethod.consensus_ties) false true true nil)
          base_only
  = (Ok (vec (1 :: 2 :: 3 :: nil)%Z), nil) /\
  Forall is_warning nil.
Proof.
  apply (execute_no_descriptors sparsify_zero tall_mask_all _ base_only
           (vec (1 :: 2 :: 3 :: nil)%Z) base_only nil).
  reflexivity.
Defined.

(** *** The sparsification stage *)

Lemma mapM_sparsify_one
  (sparsify : Tensor -> Qc -> SparsificationMethod.t -> bool -> option Qc
              -> option Qc -> Tensor)
  (self : GTATask) (sm : SparsificationMethod.t) (tvs : list Descriptor)
  (ds : list Qc) :
  mapR (tv_get Param.density) tvs = Ok ds ->
  mapM (sparsify_one sparsify self sm) tvs
  = (Ok (zipWith (fun tv d => set_sparsified_delta tv (sparsified sparsify self sm tv d))
                 tvs ds),
     map (fun tv => CallSparsify (tv_model tv)) tvs).
Proof.
  revert ds. induction tvs as [|tv tvs IH]; intros ds H; simpl in *.
  - inversion H. reflexivity.
  - destruct (tv_get Param.density tv) as [d|e] eqn:Ed; [|discriminate].
    destruct (mapR (tv_get Param.density) tvs) as [ds'|e]; [|discriminate].
    inversion H; subst ds. unfold sparsify_one at 1. rewrite Ed.
    rewrite bind_lift_ok, (IH ds' eq_refl).
    unfold bind, emit, ret; simpl. rewrite app_nil_r. reflexivity.
Qed.

Lemma mapR_get_sparsified (f : Descriptor -> Qc -> Tensor)
  (tvs : list Descriptor) (ds : list Qc) :
  mapR get_sparsified_delta
       (zipWith (fun tv d => set_sparsified_delta tv (f tv d)) tvs ds)
  = Ok (zipWith f tvs ds).
Proof.
  revert ds. induction tvs as [|tv tvs IH]; intros [|d ds]; simpl; auto.
  now rewrite IH.
Qed.

(** C1, as the code has it: with [consensus_ta] the stack is built from the
    raw deltas and [sparsify] is not called; with [consensus_ties] every
    descriptor's delta is first replaced by [sparsify(delta, density,
    consensus_ties, rescale, ...)], stored as [sparsified_delta], and the
    stack is built from those. *)
Theorem sparsify_stage_consensus
  (sparsify : Tensor -> Qc -> SparsificationMethod.t -> bool -> option Qc
              -> option Qc -> Tensor)
  (self : GTATask) (tvs : list Descriptor) :
  (sparsification_method (method self) = Some SparsificationMethod.consensus_ta ->
   sparsify_stage sparsify self tvs = raw_deltas tvs) /\
  (sparsification_method (method self) = Some SparsificationMethod.consensus_ties ->
   forall ds, mapR (tv_get Param.density) tvs = Ok ds ->
   let sp := sparsified sparsify self SparsificationMethod.consensus_ties in
   sparsify_stage sparsify self tvs
   = (match stack (zipWith sp tvs ds) with
      | Ok deltas =>
          Ok (zipWith (fun tv d => set_sparsified_delta tv (sp tv d)) tvs ds,
              deltas)
      | Err e => Err e
      end,
      map (fun tv => CallSparsify (tv_model tv)) tvs ++ CallStack :: nil)).
Proof.
  split.
  - intro H. unfold sparsify_stage. rewrite H. reflexivity.
  - intros H ds Hd sp. unfold sparsify_stage. rewrite H. simpl negb. cbv iota.
    rewrite (mapM_sparsify_one sparsify self _ tvs ds Hd). fold sp.
    unfold bind at 1. cbv iota. rewrite mapR_get_sparsified.
    rewrite bind_lift_ok, bind_emit.
    destruct (stack (zipWith sp tvs ds)) as [deltas|e]; reflexivity.
Qed.

Lemma sparsify_stage_consensus_witness :
  sparsify_stage sparsify_zero
    (task None (Some SparsificationMethod.consensus_ties) false false true params_A)
    (descriptor_A :: nil)
  = (Ok (set_sparsified_delta descriptor_A (vec (0 :: 0 :: nil)%Z) :: nil,
         {| elem_shape := 2%nat :: nil; rows := (0 :: 0 :: nil) :: nil |}),
     CallSparsify "A" :: CallStack :: nil).
Proof.
  exact (proj2 (sparsify_stage_consensus sparsify_zero
                  (task None (Some SparsificationMethod.consensus_ties)
                        false false true params_A)
                  (descriptor_A :: nil))
               eq_refl (qz 1 :: nil) eq_refl).
Defined.

(** C1 as stated fails for [consensus_ties]: [sparsify] is called on the
    descriptor and the stack holds the sparsified delta, not the raw one. *)
Lemma consensus_ties_sparsifies_first :
  ~ (forall sparsify self tvs,
        is_consensus (sparsification_method (method self)) = true ->
        sparsify_stage sparsify self tvs = raw_deltas tvs).
Proof.
  intro H.
  specialize (H sparsify_zero
                (task None (Some SparsificationMethod.consensus_ties)
                      false false true params_A)
                (descriptor_A :: nil) eq_refl).
  apply (f_equal snd) in H. vm_compute in H. discriminate H.
Qed.

(** *** The divisor *)












(** *** Lengths along the pipeline *)

Lemma mapR_length {A B} (f : A -> result B) (l : list A) (l' : list B) :
  mapR f l = Ok l' -> length l' = length l.
Proof.
  revert l'. induction l as [|a l IH]; intros l' H; simpl in H.
  - inversion H. reflexivity.
  - destruct (f a); [|discriminate]. destruct (mapR f l); [|discriminate].
    inversion H. simpl. f_equal. now apply IH.
Qed.

Lemma mapM_length {A B} (f : A -> M B) (l : list A) (l' : list B) :
  fst (mapM f l) = Ok l' -> length l' = length l.
Proof.
  revert l'. induction l as [|a l IH]; intros l' H; simpl in H.
  - inversion H. reflexivity.
  - destruct (f a) as [[b|e] lg]; simpl in H; [|discriminate].
    destruct (mapM f l) as [[bs|e] lg']; simpl in H; [|discriminate].
    inversion H. simpl. f_equal. now apply IH.
Qed.

Lemma sparsify_stage_length
  (sparsify : Tensor -> Qc -> SparsificationMethod.t -> bool -> option Qc
              -> option Qc -> Tensor)
  (self : GTATask) (tvs : list Descriptor) (st : list Descriptor * Stack) :
  fst (sparsify_stage sparsify self tvs) = Ok st ->
  length (fst st) = length tvs.
Proof.
  unfold sparsify_stage.
  assert (Hraw : fst (emit CallStack ;;;
                      deltas <- lift (stack (map tv_delta tvs)) ;;
                      ret (tvs, deltas)) = Ok st ->
                 length (fst st) = length tvs).
  { simpl. destruct (stack (map tv_delta tvs)); simpl; intro H; inversion H.
    reflexivity. }
  destruct (sparsification_method (method self)) as [sm|]; auto.
  destruct (negb _); auto.
  destruct (mapM (sparsify_one sparsify self sm) tvs) as [[tvs'|e] lg] eqn:E;
    simpl; [|discriminate].
  destruct (mapR get_sparsified_delta tvs'); simpl; [|discriminate].
  destruct (stack a); simpl; intro H; inversion H. simpl.
  apply (mapM_length (sparsify_one sparsify self sm)). now rewrite E.
Qed.

Lemma foldM_gtv_length (wi : WeightInfo) (base_model : string) (base : Tensor)
  (tp : ParamMap) (keys : list string) (st st' : list Descriptor * TensorMap) :
  fst (foldM (gtv_step wi base_model base tp) keys st) = Ok st' ->
  (length (fst st') <= length (fst st) + length keys)%nat.
Proof.
  revert st. induction keys as [|model keys IH]; intros st H; simpl in H.
  - inversion H. lia.
  - destruct (gtv_step wi base_model base tp model st) as [[st1|e] lg] eqn:E;
      simpl in H; [|discriminate].
    apply IH in H. simpl.
    assert (length (fst st1) <= S (length (fst st)))%nat; [|lia].
    clear H IH. unfold gtv_step in E.
    destruct (String.eqb model base_model).
    { inversion E. lia. }
    destruct (getitem String.eqb model (snd st)) as [x|e]; [|discriminate].
    rewrite bind_lift_ok in E.
    destruct (fit_to_base wi base model x) as [[[x'|]|e] lg'];
      simpl in E; try discriminate.
    + destruct (tsub x' base); simpl in E; [|discriminate].
      destruct (getitem String.eqb model tp); simpl in E; [|discriminate].
      inversion E. simpl. rewrite length_app. simpl. lia.
    + inversion E. lia.
Qed.

Lemma get_task_vectors_length (wi : WeightInfo) (base_model : string)
  (tensors : TensorMap) (tp : ParamMap) (tvs : list Descriptor)
  (base : Tensor) (tensors' : TensorMap) :
  fst (get_task_vectors wi base_model tensors tp) = Ok (tvs, base, tensors') ->
  (length tvs <= length tensors)%nat.
Proof.
  unfold get_task_vectors.
  destruct (getitem String.eqb base_model tensors) as [b|e]; [|discriminate].
  rewrite bind_lift_ok.
  destruct (foldM (gtv_step wi base_model b tp) (map fst tensors) (nil, tensors))
    as [[st|e] lg] eqn:E; simpl; [|discriminate].
  intro H. inversion H; subst.
  pose proof (foldM_gtv_length wi base_model base tp (map fst tensors)
                (nil, tensors) st) as L.
  rewrite E in L. specialize (L eq_refl). simpl in L.
  rewrite length_map in L. exact L.
Qed.

(** *** The mask dtype *)

Lemma mix_stage_int8 (self : GTATask) (deltas : Stack) (weights : list Qc) :
  (Z.of_nat (length weights) < 2 ^ 63)%Z ->
  mix_stage (with_int8_mask true self) deltas weights
  = mix_stage (with_int8_mask false self) deltas weights.
Proof.
  intro Hn. unfold mix_stage. cbn [method with_int8_mask].
  destruct (consensus_method (method self)) as [cm|]; [|reflexivity].
  rewrite !bind_emit. rewrite !get_mask_any_dtype; [reflexivity| |].
  - intro H. discriminate H.
  - intros _. cbn [rows]. unfold scale_rows. rewrite zipWith_length. lia.
Qed.

Lemma merge_int8
  (sparsify : Tensor -> Qc -> SparsificationMethod.t -> bool -> option Qc
              -> option Qc -> Tensor)
  (get_tall_mask : Tensor -> Qc -> Tensor -> BoolTensor)
  (self : GTATask) (tvs : list Descriptor) (base : Tensor) :
  (Z.of_nat (length tvs) < 2 ^ 63)%Z ->
  merge sparsify get_tall_mask (with_int8_mask true self) tvs base
  = merge sparsify get_tall_mask (with_int8_mask false self) tvs base.
Proof.
  intro Hn. unfold merge.
  change (sparsify_stage sparsify (with_int8_mask true self) tvs)
    with (sparsify_stage sparsify (with_int8_mask false self) tvs).
  apply bind_ext. intros st Hst.
  apply bind_ext. intros weights Hw. simpl in Hw.
  rewrite mix_stage_int8; [reflexivity|].
  rewrite (mapR_length _ _ _ Hw).
  rewrite (sparsify_stage_length sparsify (with_int8_mask false self) tvs st Hst).
  exact Hn.
Qed.

(** C7: the merged output, and every event of the call, is the same with
    [int8_mask] set and unset, all other inputs equal (the [int64] count of
    signs cannot wrap for fewer than 2^63 models). *)
Theorem execute_int8_mask
  (sparsify : Tensor -> Qc -> SparsificationMethod.t -> bool -> option Qc
              -> option Qc -> Tensor)
  (get_tall_mask : Tensor -> Qc -> Tensor -> BoolTensor)
  (self : GTATask) (tensors : TensorMap) :
  (Z.of_nat (length tensors) < 2 ^ 63)%Z ->
  execute sparsify get_tall_mask (with_int8_mask true self) tensors
  = execute sparsify get_tall_mask (with_int8_mask false self) tensors.
Proof.
  intro Hn. unfold execute. cbn [weight_info base_model tensor_parameters with_int8_mask].
  destruct (get_task_vectors (weight_info self) (base_model self) tensors
              (tensor_parameters self)) as [[[[tvs base] tensors']|e] lg] eqn:E;
    [|reflexivity].
  unfold bind. cbn [fst snd].
  destruct tvs as [|tv tvs]; [reflexivity|].
  rewrite merge_int8; [reflexivity|].
  pose proof (get_task_vectors_length (weight_info self) (base_model self)
                tensors (tensor_parameters self) (tv :: tvs) base tensors') as L.
  rewrite E in L. specialize (L eq_refl). lia.
Qed.

Lemma execute_int8_mask_witness :
  execute sparsify_zero tall_mask_all
          (with_int8_mask true
             (task (Some ConsensusMethod.count) None false false true params_AB))
          two_model_tensors
  = execute sparsify_zero tall_mask_all
            (with_int8_mask false
               (task (Some ConsensusMethod.count) None false false true params_AB))
            two_model_tensors.
Proof.
  apply (execute_int8_mask sparsify_zero tall_mask_all
           (task (Some ConsensusMethod.count) None false false true params_AB)
           two_model_tensors).
  reflexivity.
Defined.

(** *** One model of the base's shape *)

Lemma shape_eqb_refl (s : list nat) : shape_eqb s s = true.
Proof. unfold shape_eqb. destruct (list_eq_dec Nat.eq_dec s s); congruence. Qed.

Lemma shape_eqb_eq (s s' : list nat) : shape_eqb s s' = true <-> s = s'.
Proof.
  unfold shape_eqb. destruct (list_eq_dec Nat.eq_dec s s'); split; congruence.
Qed.

Lemma gtv_step_match (wi : WeightInfo) (base_model : string) (base : Tensor)
  (tp : ParamMap) (model : string) (st : list Descriptor * TensorMap)
  (x : Tensor) (ps : list (Param.t * Qc)) :
  String.eqb model base_model = false ->
  getitem String.eqb model (snd st) = Ok x ->
  shape x = shape base -> wf x -> wf base ->
  getitem String.eqb model tp = Ok ps ->
  gtv_step wi base_model base tp model st
  = (Ok (fst st ++ descriptor model (delta_of x base) ps :: nil,
         delitem String.eqb model (snd st)), nil).
Proof.
  intros Hm Hx Hs Wx Wb Hp. unfold gtv_step. rewrite Hm, Hx, bind_lift_ok.
  unfold fit_to_base. rewrite Hs, shape_eqb_refl. simpl negb. cbv iota.
  rewrite bind_ret. unfold tsub. rewrite (broadcast_op_same _ x base Hs Wx Wb).
  rewrite bind_lift_ok, Hp, bind_lift_ok. reflexivity.
Qed.






(** *** The tall-mask stage *)











Lemma stack_rows_same {A} (s : list nat) (ts : list (list nat * list A)) :
  ts <> nil -> Forall (fun t => fst t = s) ts ->
  stack_rows ts = Ok (s, map snd ts).
Proof.
  intros Hne H. destruct ts as [|t ts]; [contradiction|].
  inversion H as [|? ? Ht Hts]; subst. unfold stack_rows.
  replace (forallb (fun u => shape_eqb (fst u) (fst t)) ts) with true; auto.
  symmetry. apply forallb_forall. intros u Hu.
  rewrite Forall_forall in Hts. rewrite (Hts u Hu). apply shape_eqb_refl.
Qed.


(** *** Shapes along the pipeline *)

Lemma same_core_mapR (p : Param.t) (tvs tvs' : list Descriptor) :
  Forall2 same_core tvs tvs' ->
  mapR (tv_get p) tvs' = mapR (tv_get p) tvs.
Proof.
  induction 1 as [|tv tv' tvs tvs' (_ & _ & Hp) H IH]; simpl; auto.
  unfold tv_get at 1 3. now rewrite Hp, IH.
Qed.


Lemma same_core_refl (tvs : list Descriptor) : Forall2 same_core tvs tvs.
Proof. induction tvs; constructor; auto. repeat split. Qed.


Lemma same_core_sparsified (f : Descriptor -> Qc -> Tensor)
  (tvs : list Descriptor) (ds : list Qc) :
  length ds = length tvs ->
  Forall2 same_core tvs
          (zipWith (fun tv d => set_sparsified_delta tv (f tv d)) tvs ds).
Proof.
  revert ds. induction tvs as [|tv tvs IH]; intros [|d ds] H; simpl in *;
    try discriminate; constructor; auto.
  repeat split.
Qed.

Lemma stack_fits (base : Tensor) (ts : list Tensor) :
  ts <> nil -> Forall (fun t => shape t = shape base /\ wf t) ts ->
  stack ts = Ok {| elem_shape := shape base; rows := map data ts |} /\
  wf_rows (numel (shape base)) (map data ts).
Proof.
  intros Hne H. split.
  - unfold stack. rewrite (stack_rows_same (shape base)).
    + now rewrite map_map.
    + destruct ts; [contradiction|discriminate].
    + rewrite Forall_map. revert H. apply Forall_impl. simpl. tauto.
  - unfold wf_rows. rewrite Forall_map. revert H. apply Forall_impl.
    intros t [Hs Hw]. unfold wf in Hw. now rewrite Hw, Hs.
Qed.

(** The stage that builds [deltas] keeps the data model: the stack has the
    base's shape and one row per descriptor. *)
Lemma sparsify_stage_fits
  (sparsify : Tensor -> Qc -> SparsificationMethod.t -> bool -> option Qc
              -> option Qc -> Tensor)
  (self : GTATask) (base : Tensor) (tvs : list Descriptor) :
  sparsify_keeps_shape sparsify ->
  tvs <> nil -> fits base tvs ->
  (sparsification_method (method self) <> None ->
   sparsification_method (method self) <> Some SparsificationMethod.consensus_ta ->
   exists ds, mapR (tv_get Param.density) tvs = Ok ds) ->
  exists tvs' deltas,
    fst (sparsify_stage sparsify self tvs) = Ok (tvs', deltas) /\
    Forall2 same_core tvs tvs' /\
    elem_shape deltas = shape base /\
    wf_stack deltas /\
    length (rows deltas) = length tvs.
Proof.
  intros Hsp Hne Hfit Hd.
  assert (Raw : exists tvs' deltas,
             fst (raw_deltas tvs) = Ok (tvs', deltas) /\
             Forall2 same_core tvs tvs' /\
             elem_shape deltas = shape base /\
             wf_stack deltas /\
             length (rows deltas) = length tvs).
  { destruct (stack_fits base (map tv_delta tvs)) as [E W].
    - destruct tvs; [contradiction|discriminate].
    - unfold fits in Hfit. now rewrite Forall_map.
    - exists tvs, {| elem_shape := shape base;
                     rows := map data (map tv_delta tvs) |}.
      unfold raw_deltas. rewrite bind_emit. cbn [fst]. rewrite E.
      repeat split; auto using same_core_refl.
      cbn [rows]. now rewrite !length_map. }
  unfold sparsify_stage.
  destruct (sparsification_method (method self)) as [sm|]; [|exact Raw].
  destruct (SparsificationMethod.eqb sm SparsificationMethod.consensus_ta) eqn:Esm;
    [exact Raw|].
  simpl negb. cbv iota. clear Raw.
  destruct Hd as [ds Hd]; [discriminate|intro H; inversion H; subst sm; discriminate|].
  assert (Hlen : length ds = length tvs) by (eapply mapR_length; eauto).
  set (sp := sparsified sparsify self sm).
  destruct (stack_fits base (zipWith sp tvs ds)) as [E W].
  - destruct tvs, ds; simpl in *; try discriminate; contradiction.
  - clear - Hsp Hfit Hlen. revert ds Hlen.
    induction Hfit as [|tv tvs [Hs Hw] Hfit IH]; intros [|d ds] Hl; simpl in *;
      try discriminate; constructor; auto.
    unfold sp, sparsified.
    destruct (Hsp (tv_delta tv) d sm (rescale self)
                  (assoc Param.eqb Param.gamma (tv_params tv))
                  (assoc Param.eqb Param.epsilon (tv_params tv))) as [H1 H2].
    rewrite H1. auto.
  - exists (zipWith (fun tv d => set_sparsified_delta tv (sp tv d)) tvs ds),
           {| elem_shape := shape base; rows := map data (zipWith sp tvs ds) |}.
    rewrite (mapM_sparsify_one sparsify self sm tvs ds Hd). fold sp.
    unfold bind at 1. cbv iota. cbn [fst]. rewrite mapR_get_sparsified.
    rewrite bind_lift_ok, bind_emit. cbn [fst]. rewrite E.
    repeat split; auto using same_core_sparsified.
    cbn [rows]. rewrite length_map, zipWith_length. lia.
Qed.




Lemma get_mask_in_rows {T} {D : MaskDtype T} (delta : Stack)
  (cm : ConsensusMethod.t) :
  wf_stack delta ->
  exists mask,
    get_mask_in (T := T) delta (ConsensusMethod.value cm) = Ok mask /\
    wf_rows (numel (elem_shape delta)) mask.
Proof.
  intro Hwf. unfold wf_stack in Hwf. unfold get_mask_in.
  set (m := numel (elem_shape delta)) in *.
  assert (R : forall majority : list T,
             length majority = m ->
             wf_rows m (map (fun r => zipWith elt_eqb r majority)
                            (map (map (fun x => cast (sgn x))) (rows delta)))).
  { intros majority Hl. unfold wf_rows. rewrite !Forall_map.
    revert Hwf. apply Forall_impl. intros r Hr.
    rewrite zipWith_length, length_map. lia. }
  destruct cm; simpl ConsensusMethod.value.
  - destruct (string_dec "count" "sum") as [E|_]; [discriminate E|].
    destruct (string_dec "count" "count") as [_|E]; [|contradiction].
    eexists. split; [reflexivity|]. apply R.
    rewrite length_map. apply sum_rows_length. now apply wf_rows_map.
  - destruct (string_dec "sum" "sum") as [_|E]; [|contradiction].
    eexists. split; [reflexivity|]. apply R.
    rewrite length_map. apply sum_rows_length. exact Hwf.
Qed.

Lemma get_mask_rows (delta : Stack) (cm : ConsensusMethod.t)
  (dt : option dtype) :
  wf_stack delta ->
  exists mask,
    get_mask delta (ConsensusMethod.value cm) dt = Ok mask /\
    wf_rows (numel (elem_shape delta)) mask.
Proof.
  intro H. destruct dt as [[|]|]; simpl; now apply get_mask_in_rows.
Qed.



(** *** The data model of the descriptors *)

Lemma getitem_In {V} (key : string) (m : list (string * V)) (v : V) :
  getitem String.eqb key m = Ok v -> exists key', In (key', v) m.
Proof.
  unfold getitem. induction m as [|[k0 v0] m IH]; simpl; [discriminate|].
  destruct (String.eqb k0 key).
  - intro H. inversion H; subst. exists k0. now left.
  - intro H. destruct (IH H) as [key' Hin]. exists key'. now right.
Qed.

Lemma delitem_Forall {V} (P : string * V -> Prop) (key : string)
  (m : list (string * V)) :
  Forall P m -> Forall P (delitem String.eqb key m).
Proof.
  intro H. unfold delitem. rewrite Forall_forall in *.
  intros kv Hin. apply filter_In in Hin. now apply H.
Qed.

Lemma gtv_step_fits (wi : WeightInfo) (base_model : string) (base : Tensor)
  (tp : ParamMap) (model : string) (st st' : list Descriptor * TensorMap) :
  is_embed wi = false -> wf base ->
  Forall (fun kv => wf (snd kv)) (snd st) -> fits base (fst st) ->
  fst (gtv_step wi base_model base tp model st) = Ok st' ->
  Forall (fun kv => wf (snd kv)) (snd st') /\ fits base (fst st').
Proof.
  intros He Wb Wt Hfit. unfold gtv_step.
  destruct (String.eqb model base_model).
  { simpl. intro H. inversion H; subst. auto. }
  destruct (getitem String.eqb model (snd st)) as [x|e] eqn:Ex; [|discriminate].
  rewrite bind_lift_ok. unfold fit_to_base. rewrite He.
  destruct (shape_eqb (shape x) (shape base)) eqn:Es; simpl negb; cbv iota.
  - rewrite bind_ret. apply shape_eqb_eq in Es.
    assert (Wx : wf x).
    { destruct (getitem_In _ _ _ Ex) as [key' Hin].
      rewrite Forall_forall in Wt. exact (Wt _ Hin). }
    unfold tsub. rewrite (broadcast_op_same _ x base Es Wx Wb), bind_lift_ok.
    destruct (getitem String.eqb model tp) as [ps|e]; [|discriminate].
    rewrite bind_lift_ok. simpl. intro H. inversion H; subst. simpl. split.
    + now apply delitem_Forall.
    + unfold fits. apply Forall_app. split; [exact Hfit|].
      constructor; [|constructor]. simpl. split; [reflexivity|].
      unfold wf in *. simpl. rewrite zipWith_length, Wx, Wb, Es. lia.
  - simpl. intro H. inversion H; subst. auto.
Qed.

(** For a weight that is not an embedding, the descriptors extracted from
    well-formed tensors all have the base's shape. *)
Lemma get_task_vectors_fits (wi : WeightInfo) (base_model : string)
  (tensors : TensorMap) (tp : ParamMap) (tvs : list Descriptor)
  (base : Tensor) (tensors' : TensorMap) :
  is_embed wi = false ->
  Forall (fun kv => wf (snd kv)) tensors ->
  fst (get_task_vectors wi base_model tensors tp) = Ok (tvs, base, tensors') ->
  wf base /\ fits base tvs.
Proof.
  intros He Wt. unfold get_task_vectors.
  destruct (getitem String.eqb base_model tensors) as [b|e] eqn:Eb; [|discriminate].
  rewrite bind_lift_ok.
  assert (Wb : wf b).
  { destruct (getitem_In _ _ _ Eb) as [key' Hin].
    rewrite Forall_forall in Wt. exact (Wt _ Hin). }
  assert (F : forall keys st st',
             Forall (fun kv => wf (snd kv)) (snd st) -> fits b (fst st) ->
             fst (foldM (gtv_step wi base_model b tp) keys st) = Ok st' ->
             fits b (fst st')).
  { induction keys as [|key keys IH]; intros st st' W Hf; simpl.
    - intro H. inversion H; subst. exact Hf.
    - destruct (gtv_step wi base_model b tp key st) as [[st1|e] lg] eqn:E1;
        simpl; [|discriminate].
      destruct (gtv_step_fits wi base_model b tp key st st1 He Wb W Hf) as [W1 F1].
      { now rewrite E1. }
      apply IH; auto. }
  destruct (foldM (gtv_step wi base_model b tp) (map fst tensors) (nil, tensors))
    as [[st|e] lg] eqn:E; simpl; [|discriminate].
  intro H. inversion H; subst. split; [exact Wb|].
  apply (F (map fst tensors) (nil, tensors) st); auto.
  - constructor.
  - now rewrite E.
Qed.





(** *** Slicing *)

Lemma nth_concat_rows {A} (k : nat) (rs : list (list A)) (i c : nat) (d : A) :
  wf_rows k rs -> (i < length rs)%nat -> (c < k)%nat ->
  nth (i * k + c) (concat rs) d = nth c (nth i rs nil) d.
Proof.
  intro H. revert i. induction H as [|r rs Hr H IH]; intros i Hi Hc; simpl in *.
  - lia.
  - destruct i as [|i].
    + simpl. rewrite app_nth1 by lia. reflexivity.
    + rewrite app_nth2 by (rewrite Hr; lia).
      replace (S i * k + c - length r)%nat with (i * k + c)%nat
        by (rewrite Hr; lia).
      apply IH; auto. lia.
Qed.

Lemma nth_map_lt {A B} (f : A -> B) (l : list A) (i : nat) (d : B) (d' : A) :
  (i < length l)%nat -> nth i (map f l) d = f (nth i l d').
Proof.
  intro H. rewrite (nth_indep _ d (f d')) by now rewrite length_map.
  apply map_nth.
Qed.

Lemma nth_chunks {A} (k n : nat) (l : list A) (i c : nat) (d : A) :
  (i < n)%nat -> (c < k)%nat ->
  nth c (nth i (chunks k n l) nil) d = nth (i * k + c) l d.
Proof.
  revert l i. induction n as [|n IH]; intros l i Hi Hc; [lia|].
  simpl. destruct i as [|i].
  - rewrite nth_firstn. apply Nat.ltb_lt in Hc. now rewrite Hc.
  - rewrite IH by lia. rewrite nth_skipn. f_equal. lia.
Qed.

Lemma slice2_leading (x : Tensor) (s0 s1 b0 b1 : nat) (rest : list nat) :
  shape x = s0 :: s1 :: rest -> wf x ->
  (b0 <= s0)%nat -> (b1 <= s1)%nat ->
  exists x',
    slice2 x b0 b1 = Ok x' /\
    shape x' = b0 :: b1 :: rest /\ wf x' /\
    forall i j t,
      (i < b0)%nat -> (j < b1)%nat -> (t < numel rest)%nat ->
      nth ((i * b1 + j) * numel rest + t) (data x') 0
      = nth ((i * s1 + j) * numel rest + t) (data x) 0.
Proof.
  intros Hs Wx H0 H1. unfold slice2. rewrite Hs.
  set (p := numel rest).
  set (rs := map (firstn (b1 * p)) (firstn b0 (chunks (s1 * p) s0 (data x)))).
  assert (Hx : length (data x) = (s0 * (s1 * p))%nat).
  { unfold wf in Wx. rewrite Wx, Hs. reflexivity. }
  assert (Hrs : wf_rows (b1 * p) rs).
  { unfold rs, wf_rows. rewrite Forall_map.
    pose proof (chunks_wf (s1 * p) s0 (data x) Hx) as Hc.
    unfold wf_rows in Hc. rewrite Forall_forall in *.
    intros r Hr. rewrite length_firstn, (Hc r).
    - nia.
    - rewrite <- (firstn_skipn b0 (chunks (s1 * p) s0 (data x))).
      apply in_or_app. now left. }
  assert (Hl : length rs = b0).
  { unfold rs. rewrite length_map, length_firstn, chunks_length. lia. }
  eexists. split; [reflexivity|]. cbn [shape data]. fold p. fold rs.
  repeat split.
  - rewrite !Nat.min_l by lia. reflexivity.
  - unfold wf. cbn [shape data numel fold_right]. fold (numel rest). fold p.
    fold rs. rewrite length_concat.
    replace (list_sum (map (@length Qc) rs)) with (length rs * (b1 * p))%nat.
    + rewrite Hl. rewrite !Nat.min_l by lia. reflexivity.
    + clear - Hrs. induction Hrs as [|r rs Hr H IH]; simpl; congruence.
  - intros i j t Hi Hj Ht.
    replace ((i * b1 + j) * p + t)%nat with (i * (b1 * p) + (j * p + t))%nat by lia.
    replace ((i * s1 + j) * p + t)%nat with (i * (s1 * p) + (j * p + t))%nat by lia.
    assert (Hc : (j * p + t < b1 * p)%nat) by nia.
    rewrite (nth_concat_rows (b1 * p) rs i (j * p + t) 0 Hrs) by (auto; lia).
    unfold rs.
    rewrite (nth_map_lt (firstn (b1 * p)) _ i nil nil)
      by (rewrite length_firstn, chunks_length; lia).
    rewrite nth_firstn.
    apply Nat.ltb_lt in Hc. rewrite Hc.
    rewrite <- (firstn_skipn b0 (chunks (s1 * p) s0 (data x))) at 1.
    rewrite nth_firstn. apply Nat.ltb_lt in Hi. rewrite Hi.
    rewrite firstn_skipn.
    apply Nat.ltb_lt in Hi. apply Nat.ltb_lt in Hc.
    apply nth_chunks; [lia|nia].
Qed.

(** *** Models whose shape differs from the base's *)

Lemma shape_eqb_neq (s s' : list nat) : s <> s' -> shape_eqb s s' = false.
Proof.
  intro H. unfold shape_eqb. destruct (list_eq_dec Nat.eq_dec s s'); congruence.
Qed.

Lemma gtv_step_embed (wi : WeightInfo) (base_model : string) (base : Tensor)
  (tp : ParamMap) (model : string) (st : list Descriptor * TensorMap)
  (x : Tensor) (ps : list (Param.t * Qc)) (s0 s1 b0 b1 : nat)
  (rest : list nat) :
  String.eqb model base_model = false ->
  getitem String.eqb model (snd st) = Ok x ->
  shape x <> shape base -> is_embed wi = true ->
  shape x = s0 :: s1 :: rest -> shape base = b0 :: b1 :: rest ->
  (b0 <= s0)%nat -> (b1 <= s1)%nat -> wf x -> wf base ->
  getitem String.eqb model tp = Ok ps ->
  exists delta,
    gtv_step wi base_model base tp model st
    = (Ok (fst st ++ descriptor model delta ps :: nil,
           delitem String.eqb model (snd st)),
       Warning (submatrix_warning model (name wi)) :: nil) /\
    shape delta = shape base /\
    forall i j t,
      (i < b0)%nat -> (j < b1)%nat -> (t < numel rest)%nat ->
      nth ((i * b1 + j) * numel rest + t) (data delta) 0
      = nth ((i * s1 + j) * numel rest + t) (data x) 0
        - nth ((i * b1 + j) * numel rest + t) (data base) 0.
Proof.
  intros Hm Hx Hne He Hsx Hsb H0 H1 Wx Wb Hp.
  destruct (slice2_leading x s0 s1 b0 b1 rest Hsx Wx H0 H1)
    as (x' & Es & Hs' & Wx' & Hnth).
  assert (Hs : shape x' = shape base) by congruence.
  exists (delta_of x' base). split; [|split].
  - assert (F : fit_to_base wi base model x
                 = (Ok (Some x'),
                    Warning (submatrix_warning model (name wi)) :: nil)).
    { unfold fit_to_base. rewrite (shape_eqb_neq _ _ Hne), He.
      simpl negb. cbv iota. unfold shape_at. rewrite Hsb. cbn [nth_error].
      rewrite !bind_lift_ok, Es, bind_lift_ok. reflexivity. }
    unfold gtv_step. rewrite Hm, Hx, bind_lift_ok, F.
    unfold bind at 1. cbv iota. unfold tsub.
    rewrite (broadcast_op_same _ x' base Hs Wx' Wb).
    rewrite bind_lift_ok, Hp, bind_lift_ok. reflexivity.
  - reflexivity.
  - intros i j t Hi Hj Ht. cbn [delta_of data].
    set (idx := ((i * b1 + j) * numel rest + t)%nat).
    assert (A1 : (i * b1 + j + 1 <= b0 * b1)%nat) by nia.
    assert (A2 : ((i * b1 + j + 1) * numel rest <= b0 * b1 * numel rest)%nat)
      by (apply Nat.mul_le_mono_r; exact A1).
    assert (Hidx : (idx < b0 * (b1 * numel rest))%nat) by (unfold idx; lia).
    rewrite (zipWith_nth Qcminus (data x') (data base) idx 0 0 0).
    + unfold idx. now rewrite Hnth.
    + unfold wf in Wx'. rewrite Wx', Hs'. exact Hidx.
    + unfold wf in Wb. rewrite Wb, Hsb. exact Hidx.
Qed.

Lemma gtv_step_skip (wi : WeightInfo) (base_model : string) (base : Tensor)
  (tp : ParamMap) (model : string) (st : list Descriptor * TensorMap)
  (x : Tensor) :
  String.eqb model base_model = false ->
  getitem String.eqb model (snd st) = Ok x ->
  shape x <> shape base -> is_embed wi = false ->
  gtv_step wi base_model base tp model st
  = (Ok st, Warning (skip_warning model (name wi)) :: nil).
Proof.
  intros Hm Hx Hne He. unfold gtv_step. rewrite Hm, Hx, bind_lift_ok.
  unfold fit_to_base. rewrite (shape_eqb_neq _ _ Hne), He. reflexivity.
Qed.

Lemma assoc_delitem_other {V} (key key' : string) (m : list (string * V)) :
  key' <> key ->
  assoc String.eqb key' (delitem String.eqb key m) = assoc String.eqb key' m.
Proof.
  intro H. induction m as [|[k0 v] m IH]; simpl; auto.
  destruct (String.eqb k0 key) eqn:E; simpl.
  - apply String.eqb_eq in E. subst k0.
    apply String.eqb_neq in H. rewrite String.eqb_sym in H. now rewrite H.
  - now rewrite IH.
Qed.

Lemma delitem_comm {V} (key key' : string) (m : list (string * V)) :
  delitem String.eqb key (delitem String.eqb key' m)
  = delitem String.eqb key' (delitem String.eqb key m).
Proof.
  induction m as [|[k0 v] m IH]; simpl; auto.
  destruct (String.eqb k0 key') eqn:E', (String.eqb k0 key) eqn:E; simpl;
    rewrite ?E, ?E'; simpl; congruence.
Qed.

Lemma keys_delitem {V} (key : string) (m : list (string * V)) :
  map fst (delitem String.eqb key m)
  = filter (fun k' => negb (String.eqb k' key)) (map fst m).
Proof.
  induction m as [|[k0 v] m IH]; simpl; auto.
  destruct (String.eqb k0 key); simpl; now rewrite IH.
Qed.

(** Steps for other models do not see whether the skipped model is in the
    dictionary. *)
Lemma gtv_step_other (wi : WeightInfo) (base_model : string) (base : Tensor)
  (tp : ParamMap) (model key : string) (res : list Descriptor)
  (tensors : TensorMap) :
  key <> model ->
  fst (gtv_step wi base_model base tp key
         (res, delitem String.eqb model tensors))
  = map_result (fun st => (fst st, delitem String.eqb model (snd st)))
               (fst (gtv_step wi base_model base tp key (res, tensors))).
Proof.
  intro Hk. unfold gtv_step. cbn [fst snd].
  destruct (String.eqb key base_model); [reflexivity|].
  unfold getitem. rewrite (assoc_delitem_other model key tensors Hk).
  destruct (assoc String.eqb key tensors) as [x|]; [|reflexivity].
  rewrite !bind_lift_ok.
  destruct (fit_to_base wi base key x) as [[[x'|]|e] lg]; simpl; try reflexivity.
  destruct (tsub x' base) as [delta|e]; simpl; [|reflexivity].
  destruct (assoc String.eqb key tp) as [ps|]; simpl; [|reflexivity].
  now rewrite delitem_comm.
Qed.

(** A step for another model leaves the entry of [model] in place. *)
Lemma gtv_step_keeps (wi : WeightInfo) (base_model : string) (base : Tensor)
  (tp : ParamMap) (model key : string) (res : list Descriptor)
  (tensors : TensorMap) (res1 : list Descriptor) (tensors1 : TensorMap) :
  key <> model ->
  fst (gtv_step wi base_model base tp key (res, tensors)) = Ok (res1, tensors1) ->
  getitem String.eqb model tensors1 = getitem String.eqb model tensors.
Proof.
  intros Hk. unfold gtv_step. cbn [fst snd].
  destruct (String.eqb key base_model).
  { simpl. intro H. inversion H. reflexivity. }
  destruct (getitem String.eqb key tensors) as [x|e]; [|discriminate].
  rewrite bind_lift_ok.
  destruct (fit_to_base wi base key x) as [[[x'|]|e] lg]; simpl;
    try discriminate.
  - destruct (tsub x' base) as [delta|e]; simpl; [|discriminate].
    destruct (getitem String.eqb key tp) as [ps|e]; simpl; [|discriminate].
    intro H. inversion H. unfold getitem.
    rewrite assoc_delitem_other; auto.
  - intro H. inversion H. reflexivity.
Qed.

Lemma foldM_skip (wi : WeightInfo) (base_model : string) (base : Tensor)
  (tp : ParamMap) (model : string) (x : Tensor) (keys : list string)
  (res : list Descriptor) (tensors : TensorMap) :
  String.eqb model base_model = false ->
  getitem String.eqb model tensors = Ok x ->
  shape x <> shape base -> is_embed wi = false ->
  fst (foldM (gtv_step wi base_model base tp)
             (filter (fun k' => negb (String.eqb k' model)) keys)
             (res, delitem String.eqb model tensors))
  = map_result (fun st => (fst st, delitem String.eqb model (snd st)))
               (fst (foldM (gtv_step wi base_model base tp) keys (res, tensors))).
Proof.
  intros Hm Hx Hne He. revert res tensors Hx.
  induction keys as [|key keys IH]; intros res tensors Hx; [reflexivity|].
  cbn [filter foldM]. destruct (String.eqb key model) eqn:Ek; simpl negb; cbv iota.
  - apply String.eqb_eq in Ek. subst key.
    rewrite (gtv_step_skip wi base_model base tp model (res, tensors) x Hm Hx Hne He).
    unfold bind at 1. cbn [fst snd]. now apply IH.
  - apply String.eqb_neq in Ek. cbn [foldM].
    pose proof (gtv_step_other wi base_model base tp model key res tensors Ek) as S.
    destruct (gtv_step wi base_model base tp key (res, tensors))
      as [[[res1 tensors1]|e] lg] eqn:E1; simpl in S.
    + rewrite (fst_bind _ _ _ S). unfold bind at 1. cbn [fst snd].
      apply IH.
      rewrite (gtv_step_keeps wi base_model base tp model key res tensors
                 res1 tensors1); auto.
      now rewrite E1.
    + rewrite (fst_bind_err _ _ _ S). reflexivity.
Qed.

Lemma get_task_vectors_skip (wi : WeightInfo) (base_model : string)
  (tensors : TensorMap) (tp : ParamMap) (model : string) (x base : Tensor) :
  String.eqb model base_model = false ->
  getitem String.eqb model tensors = Ok x ->
  getitem String.eqb base_model tensors = Ok base ->
  shape x <> shape base -> is_embed wi = false ->
  fst (get_task_vectors wi base_model (delitem String.eqb model tensors) tp)
  = map_result (fun r => (fst (fst r), snd (fst r),
                          delitem String.eqb model (snd r)))
               (fst (get_task_vectors wi base_model tensors tp)).
Proof.
  intros Hm Hx Hb Hne He. unfold get_task_vectors.
  assert (Hb' : getitem String.eqb base_model (delitem String.eqb model tensors)
                = Ok base).
  { unfold getitem in *. rewrite assoc_delitem_other; auto.
    apply String.eqb_neq in Hm. congruence. }
  rewrite Hb, Hb', !bind_lift_ok, keys_delitem.
  pose proof (foldM_skip wi base_model base tp model x (map fst tensors) nil
                tensors Hm Hx Hne He) as F.
  destruct (foldM (gtv_step wi base_model base tp) (map fst tensors) (nil, tensors))
    as [[st|e] lg]; simpl in F.
  - rewrite (fst_bind _ _ _ F). reflexivity.
  - rewrite (fst_bind_err _ _ _ F). reflexivity.
Qed.

(** ** Claim about get_task_vectors *)

(** C5, as the code has it.  For a non-base model whose tensor shape differs
    from the base's: on an embedding weight, when the model's tensor is at
    least as large as the base along the first two axes and agrees on the
    others, the model contributes a descriptor whose delta has the base's
    shape, each element the model's element of the leading sub-block minus
    the base's, and a warning is written; on any other weight the model
    contributes no descriptor, a warning is written, and the merge returns
    what it returns without the model. *)
Theorem shape_mismatch_policy
  (sparsify : Tensor -> Qc -> SparsificationMethod.t -> bool -> option Qc
              -> option Qc -> Tensor)
  (get_tall_mask : Tensor -> Qc -> Tensor -> BoolTensor)
  (self : GTATask) (tensors : TensorMap) (model : string) (x base : Tensor) :
  model <> base_model self ->
  getitem String.eqb model tensors = Ok x ->
  getitem String.eqb (base_model self) tensors = Ok base ->
  shape x <> shape base ->
  (is_embed (weight_info self) = true ->
   forall s0 s1 b0 b1 rest ps st,
     shape x = s0 :: s1 :: rest -> shape base = b0 :: b1 :: rest ->
     (b0 <= s0)%nat -> (b1 <= s1)%nat -> wf x -> wf base ->
     getitem String.eqb model (tensor_parameters self) = Ok ps ->
     getitem String.eqb model (snd st) = Ok x ->
     exists delta,
       gtv_step (weight_info self) (base_model self) base
                (tensor_parameters self) model st
       = (Ok (fst st ++ descriptor model delta ps :: nil,
              delitem String.eqb model (snd st)),
          Warning (submatrix_warning model (name (weight_info self))) :: nil) /\
       shape delta = shape base /\
       forall i j t,
         (i < b0)%nat -> (j < b1)%nat -> (t < numel rest)%nat ->
         nth ((i * b1 + j) * numel rest + t) (data delta) 0
         = nth ((i * s1 + j) * numel rest + t) (data x) 0
           - nth ((i * b1 + j) * numel rest + t) (data base) 0) /\
  (is_embed (weight_info self) = false ->
   (forall st,
       getitem String.eqb model (snd st) = Ok x ->
       gtv_step (weight_info self) (base_model self) base
                (tensor_parameters self) model st
       = (Ok st,
          Warning (skip_warning model (name (weight_info self))) :: nil)) /\
   fst (execute sparsify get_tall_mask self tensors)
   = fst (execute sparsify get_tall_mask self
                  (delitem String.eqb model tensors))).
Proof.
  intros Hm Hx Hb Hne.
  assert (Em : String.eqb model (base_model self) = false)
    by now apply String.eqb_neq.
  split.
  - intros He s0 s1 b0 b1 rest ps st Hsx Hsb H0 H1 Wx Wb Hp Hst.
    now apply (gtv_step_embed _ _ _ _ _ _ x ps s0 s1 b0 b1 rest).
  - intro He. split.
    + intros st Hst. now apply (gtv_step_skip _ _ _ _ _ _ x).
    + unfold execute.
      pose proof (get_task_vectors_skip (weight_info self) (base_model self)
                    tensors (tensor_parameters self) model x base
                    Em Hx Hb Hne He) as G.
      destruct (get_task_vectors (weight_info self) (base_model self) tensors
                  (tensor_parameters self)) as [[r|e] lg]; simpl in G.
      * rewrite (fst_bind _ _ _ G). reflexivity.
      * rewrite (fst_bind_err _ _ _ G). reflexivity.
Qed.

Lemma shape_mismatch_policy_witness :
  (exists delta,
      gtv_step {| name := "w"; is_embed := true |} "base" embed_base params_A "A"
               (nil, ("base", embed_base) :: ("A", embed_large) :: nil)
      = (Ok (descriptor "A" delta (params_k 1) :: nil,
             ("base", embed_base) :: nil),
         Warning "Using submatrix of A:w" :: nil) /\
      shape delta = 2%nat :: 2%nat :: nil /\
      nth 3 (data delta) 0 = qz 50 - qz 4) /\
  fst (execute sparsify_zero tall_mask_all
         (task None None false false true params_A)
         (("base", embed_base) :: ("A", embed_large) :: nil))
  = fst (execute sparsify_zero tall_mask_all
           (task None None false false true params_A)
           (("base", embed_base) :: nil)).
Proof.
  split.
  - destruct (proj1 (shape_mismatch_policy sparsify_zero tall_mask_all
                       (task None None true false true params_A)
                       (("base", embed_base) :: ("A", embed_large) :: nil)
                       "A" embed_large embed_base
                       ltac:(discriminate) eq_refl eq_refl ltac:(discriminate))
                    eq_refl 3%nat 3%nat 2%nat 2%nat nil
                    (params_k 1)
                    (nil, ("base", embed_base) :: ("A", embed_large) :: nil)
                    eq_refl eq_refl ltac:(lia) ltac:(lia) eq_refl eq_refl
                    eq_refl eq_refl)
      as (delta & E & Hs & Hn).
    exists delta. split; [exact E|]. split; [exact Hs|].
    exact (Hn 1%nat 1%nat 0%nat ltac:(lia) ltac:(lia) ltac:(simpl; lia)).
  - exact (proj2 (proj2 (shape_mismatch_policy sparsify_zero tall_mask_all
                           (task None None false false true params_A)
                           (("base", embed_base) :: ("A", embed_large) :: nil)
                           "A" embed_large embed_base
                           ltac:(discriminate) eq_refl eq_refl
                           ltac:(discriminate))
                        eq_refl)).
Defined.

(** C5 as stated fails on an embedding weight when the model's table is
    smaller than the base's: the sub-block keeps the model's 2 rows, the
    subtraction from the base's 3 rows raises, and no descriptor is made. *)
Lemma smaller_embedding_raises :
  shape embed_small <> shape embed_base_tall /\
  is_embed (weight_info (task None None true false true params_A)) = true /\
  fit_to_base {| name := "w"; is_embed := true |} embed_base_tall "A" embed_small
  = (Ok (Some embed_small), Warning "Using submatrix of A:w" :: nil) /\
  get_task_vectors {| name := "w"; is_embed := true |} "base"
                   (("base", embed_base_tall) :: ("A", embed_small) :: nil)
                   params_A
  = (Err (RuntimeError "The size of tensor a must match the size of tensor b"),
     Warning "Using submatrix of A:w" :: nil) /\
  execute sparsify_zero tall_mask_all
          (task None None true false true params_A)
          (("base", embed_base_tall) :: ("A", embed_small) :: nil)
  = (Err (RuntimeError "The size of tensor a must match the size of tensor b"),
     Warning "Using submatrix of A:w" :: nil).
Proof.
  repeat split; try (vm_compute; reflexivity). discriminate.
Qed.

(** * Further properties *)

(** ** get_task_vectors: what a successful call returns *)

(** What one iteration can do to the state: nothing, or append the
    descriptor of [model] and delete its tensor. *)
Lemma gtv_step_cases (wi : WeightInfo) (base_model : string) (base : Tensor)
  (tp : ParamMap) (model : string) (st st' : list Descriptor * TensorMap) :
  fst (gtv_step wi base_model base tp model st) = Ok st' ->
  st' = st \/
  (String.eqb model base_model = false /\
   exists x x' delta ps,
     getitem String.eqb model (snd st) = Ok x /\
     fst (fit_to_base wi base model x) = Ok (Some x') /\
     tsub x' base = Ok delta /\
     getitem String.eqb model tp = Ok ps /\
     st' = (fst st ++ descriptor model delta ps :: nil,
            delitem String.eqb model (snd st))).
Proof.
  unfold gtv_step. destruct (String.eqb model base_model) eqn:Em.
  { simpl. intro H. inversion H. now left. }
  destruct (getitem String.eqb model (snd st)) as [x|e] eqn:Ex; [|discriminate].
  rewrite bind_lift_ok.
  destruct (fit_to_base wi base model x) as [[[x'|]|e] lg] eqn:Ef; simpl;
    try discriminate.
  - destruct (tsub x' base) as [delta|e] eqn:Et; simpl; [|discriminate].
    destruct (getitem String.eqb model tp) as [ps|e] eqn:Ep; simpl; [|discriminate].
    intro H. inversion H. right. split; [reflexivity|].
    exists x, x', delta, ps. rewrite Ef. repeat split; auto.
  - intro H. inversion H. now left.
Qed.

Lemma contributed_app (tvs : list Descriptor) (d : Descriptor) (key : string) :
  contributed (tvs ++ d :: nil) key
  = contributed tvs key || String.eqb key (tv_model d).
Proof.
  unfold contributed. rewrite map_app, existsb_app. simpl.
  now rewrite orb_false_r.
Qed.

Lemma delitem_filter {V} (P : string * V -> bool) (key : string)
  (m : list (string * V)) :
  delitem String.eqb key (filter P m)
  = filter (fun kv => P kv && negb (String.eqb (fst kv) key)) m.
Proof.
  unfold delitem. induction m as [|kv m IH]; simpl; auto.
  destruct (P kv); simpl; [|exact IH].
  destruct (String.eqb (fst kv) key); simpl; now rewrite IH.
Qed.

Lemma assoc_filter_keep {V} (P : string * V -> bool) (key : string)
  (m : list (string * V)) :
  (forall v, P (key, v) = true) ->
  assoc String.eqb key (filter P m) = assoc String.eqb key m.
Proof.
  intro H. induction m as [|[k0 v] m IH]; simpl; auto.
  destruct (String.eqb k0 key) eqn:E.
  - apply String.eqb_eq in E. subst k0. rewrite H. simpl.
    now rewrite String.eqb_refl.
  - destruct (P (k0, v)); simpl; [now rewrite E|exact IH].
Qed.

(** The invariant of the loop of [get_task_vectors] over a run that
    succeeds, from a state [st0] to a state [st1] along [keys]. *)
Lemma foldM_gtv_invariant (wi : WeightInfo) (base_model : string) (base : Tensor)
  (tp : ParamMap) (tensors : TensorMap) (keys : list string)
  (st0 st1 : list Descriptor * TensorMap) :
  fst (foldM (gtv_step wi base_model base tp) keys st0) = Ok st1 ->
  snd st0 = filter (fun kv => negb (contributed (fst st0) (fst kv))) tensors ->
  exists added,
    fst st1 = fst st0 ++ added /\
    snd st1 = filter (fun kv => negb (contributed (fst st1) (fst kv))) tensors /\
    subseq (map tv_model added) keys /\
    Forall (fun d => tv_model d <> base_model /\
                     getitem String.eqb (tv_model d) tp = Ok (tv_params d) /\
                     tv_sparsified_delta d = None /\ tv_tall_mask d = None)
           added.
Proof.
  revert st0. induction keys as [|key keys IH]; intros st0 H Hinv; simpl in H.
  - inversion H; subst. exists nil. rewrite app_nil_r.
    split; [reflexivity|]. split; [exact Hinv|]. split; constructor.
  - destruct (gtv_step wi base_model base tp key st0) as [[stm|e] lg] eqn:E;
      simpl in H; [|discriminate].
    assert (Es : fst (gtv_step wi base_model base tp key st0) = Ok stm)
      by now rewrite E.
    destruct (gtv_step_cases _ _ _ _ _ _ _ Es)
      as [->|(Hm & x & x' & delta & ps & Hx & Hf & Ht & Hp & ->)].
    + destruct (IH st0 H Hinv) as (added & H1 & H2 & H3 & H4).
      exists added. repeat split; auto. now constructor.
    + destruct (IH _ H) as (added & H1 & H2 & H3 & H4).
      { cbn [fst snd]. rewrite Hinv, delitem_filter.
        apply filter_ext. intros [k0 v]. cbn [fst].
        rewrite contributed_app. cbn [descriptor tv_model].
        now rewrite negb_orb. }
      exists (descriptor key delta ps :: added). cbn [fst snd] in *.
      rewrite H1, <- app_assoc. repeat split; auto.
      * rewrite H2, H1, <- app_assoc. reflexivity.
      * simpl. now constructor.
      * constructor; auto. cbn [descriptor tv_model tv_params
                                 tv_sparsified_delta tv_tall_mask].
        repeat split; auto. now apply String.eqb_neq.
Qed.

(** X1: on success, the descriptors of [get_task_vectors] come in the order
    of the dictionary's keys, none is for the base model, each carries the
    tensor parameters of its model verbatim, and none has a
    [sparsified_delta] or a [tall_mask] yet. *)
Theorem get_task_vectors_descriptors (wi : WeightInfo) (base_model : string)
  (tensors : TensorMap) (tp : ParamMap) (tvs : list Descriptor)
  (base : Tensor) (tensors' : TensorMap) :
  fst (get_task_vectors wi base_model tensors tp) = Ok (tvs, base, tensors') ->
  subseq (map tv_model tvs) (map fst tensors) /\
  Forall (fun d => tv_model d <> base_model /\
                   getitem String.eqb (tv_model d) tp = Ok (tv_params d) /\
                   tv_sparsified_delta d = None /\ tv_tall_mask d = None)
         tvs.
Proof.
  unfold get_task_vectors.
  destruct (getitem String.eqb base_model tensors) as [b|e]; [|discriminate].
  rewrite bind_lift_ok.
  destruct (foldM (gtv_step wi base_model b tp) (map fst tensors) (nil, tensors))
    as [[st|e] lg] eqn:E; simpl; [|discriminate].
  intro H. inversion H; subst.
  destruct (foldM_gtv_invariant wi base_model base tp tensors (map fst tensors)
              (nil, tensors) st) as (added & H1 & _ & H3 & H4).
  - now rewrite E.
  - simpl. symmetry. apply forallb_filter_id. now apply forallb_forall.
  - simpl in H1. rewrite H1. auto.
Qed.

Lemma get_task_vectors_descriptors_witness :
  subseq (map tv_model two_model_descriptors) (map fst two_model_tensors) /\
  Forall (fun d => tv_model d <> "base" /\
                   getitem String.eqb (tv_model d) params_AB = Ok (tv_params d) /\
                   tv_sparsified_delta d = None /\ tv_tall_mask d = None)
         two_model_descriptors.
Proof.
  apply (get_task_vectors_descriptors {| name := "w"; is_embed := false |}
           "base" two_model_tensors params_AB two_model_descriptors
           (vec (0 :: 0 :: 0 :: 0 :: nil)%Z)
           (("base", vec (0 :: 0 :: 0 :: 0 :: nil)%Z) :: nil)).
  vm_compute. reflexivity.
Defined.

(** X2: on success, the dictionary is left with exactly the entries of the
    models that contributed no descriptor, in their order; the base tensor
    is returned as it was in the dictionary and is still there. *)
Theorem get_task_vectors_drains (wi : WeightInfo) (base_model : string)
  (tensors : TensorMap) (tp : ParamMap) (tvs : list Descriptor)
  (base : Tensor) (tensors' : TensorMap) :
  fst (get_task_vectors wi base_model tensors tp) = Ok (tvs, base, tensors') ->
  tensors' = filter (fun kv => negb (contributed tvs (fst kv))) tensors /\
  getitem String.eqb base_model tensors = Ok base /\
  getitem String.eqb base_model tensors' = Ok base /\
  Forall (fun d => getitem String.eqb (tv_model d) tensors' = Err KeyError) tvs.
Proof.
  unfold get_task_vectors.
  destruct (getitem String.eqb base_model tensors) as [b|e] eqn:Eb; [|discriminate].
  rewrite bind_lift_ok.
  destruct (foldM (gtv_step wi base_model b tp) (map fst tensors) (nil, tensors))
    as [[st|e] lg] eqn:E; simpl; [|discriminate].
  intro H. inversion H; subst.
  destruct (foldM_gtv_invariant wi base_model base tp tensors (map fst tensors)
              (nil, tensors) st) as (added & H1 & H2 & _ & H4).
  - now rewrite E.
  - simpl. symmetry. apply forallb_filter_id. now apply forallb_forall.
  - simpl in H1. subst added. split; [exact H2|]. split; [reflexivity|]. split.
    + rewrite H2. unfold getitem in *. rewrite assoc_filter_keep; auto.
      intro v. cbn [fst]. apply negb_true_iff. unfold contributed.
      apply not_true_is_false. intro C. apply existsb_exists in C.
      destruct C as (m & Hin & Hm). apply String.eqb_eq in Hm. subst m.
      apply in_map_iff in Hin. destruct Hin as (d & Hd & Hin).
      rewrite Forall_forall in H4. destruct (H4 d Hin) as [Hne _]. congruence.
    + rewrite H2. apply Forall_forall. intros d Hd. unfold getitem.
      replace (assoc String.eqb (tv_model d)
                 (filter (fun kv => negb (contributed (fst st) (fst kv))) tensors))
        with (@None Tensor); [reflexivity|].
      symmetry. clear - Hd. induction tensors as [|[k0 v] m IH]; simpl; auto.
      destruct (contributed (fst st) k0) eqn:C; simpl; auto.
      destruct (String.eqb k0 (tv_model d)) eqn:E0; auto.
      apply String.eqb_eq in E0. subst k0. exfalso.
      apply not_true_iff_false in C. apply C. unfold contributed.
      apply existsb_exists. exists (tv_model d). split.
      * now apply in_map.
      * apply String.eqb_refl.
Qed.

Lemma get_task_vectors_drains_witness :
  (("base", vec (0 :: 0 :: 0 :: 0 :: nil)%Z) :: nil)
  = filter (fun kv => negb (contributed two_model_descriptors (fst kv)))
           two_model_tensors /\
  getitem String.eqb "base" two_model_tensors
  = Ok (vec (0 :: 0 :: 0 :: 0 :: nil)%Z) /\
  getitem String.eqb "base" (("base", vec (0 :: 0 :: 0 :: 0 :: nil)%Z) :: nil)
  = Ok (vec (0 :: 0 :: 0 :: 0 :: nil)%Z) /\
  Forall (fun d => getitem String.eqb (tv_model d)
                     (("base", vec (0 :: 0 :: 0 :: 0 :: nil)%Z) :: nil)
                   = Err KeyError)
         two_model_descriptors.
Proof.
  apply (get_task_vectors_drains {| name := "w"; is_embed := false |}
           "base" two_model_tensors params_AB two_model_descriptors
           (vec (0 :: 0 :: 0 :: 0 :: nil)%Z)
           (("base", vec (0 :: 0 :: 0 :: 0 :: nil)%Z) :: nil)).
  vm_compute. reflexivity.
Defined.

(** ** get_task_vectors: every tensor of the base's shape *)

Lemma assoc_NoDup_In {V} (m : list (string * V)) (kv : string * V) :
  NoDup (map fst m) -> In kv m -> assoc String.eqb (fst kv) m = Some (snd kv).
Proof.
  induction m as [|[k0 v0] m IH]; simpl; intros Hn Hin; [contradiction|].
  inversion Hn as [|? ? Hnotin Hn']; subst.
  destruct Hin as [<-|Hin].
  - simpl. now rewrite String.eqb_refl.
  - destruct (String.eqb k0 (fst kv)) eqn:E; [|auto].
    apply String.eqb_eq in E. subst k0. exfalso. apply Hnotin.
    now apply in_map.
Qed.

Lemma foldM_all_match (wi : WeightInfo) (base_model : string) (base : Tensor)
  (tp : ParamMap) (suffix : TensorMap) (res : list Descriptor) (T : TensorMap) :
  wf base ->
  NoDup (map fst suffix) ->
  Forall (fun kv => fst kv <> base_model ->
                    getitem String.eqb (fst kv) T = Ok (snd kv)) suffix ->
  Forall (fun kv => shape (snd kv) = shape base /\ wf (snd kv)) suffix ->
  Forall (fun kv => fst kv <> base_model ->
                    exists ps, getitem String.eqb (fst kv) tp = Ok ps) suffix ->
  exists T',
    foldM (gtv_step wi base_model base tp) (map fst suffix) (res, T)
    = (Ok (res ++ map (descriptor_of tp base) (filter (is_other base_model) suffix),
           T'), nil).
Proof.
  intro Wb. revert res T.
  induction suffix as [|[key x] suffix IH]; intros res T Hn HT Hs Hp.
  - exists T. simpl. now rewrite app_nil_r.
  - inversion Hn as [|? ? Hnotin Hn']; subst.
    inversion HT as [|? ? HT0 HT']; subst.
    inversion Hs as [|? ? [Hs0 Wx] Hs']; subst.
    inversion Hp as [|? ? Hp0 Hp']; subst.
    cbn [map fst foldM filter]. cbn [fst snd] in *.
    replace (is_other base_model (key, x))
      with (negb (String.eqb key base_model)) by reflexivity.
    destruct (String.eqb key base_model) eqn:Em; simpl negb; cbv iota.
    + unfold gtv_step at 1. rewrite Em, bind_ret. now apply IH.
    + assert (Hne : key <> base_model) by now apply String.eqb_neq.
      destruct (Hp0 Hne) as [ps Eps].
      rewrite (gtv_step_match wi base_model base tp key (res, T) x ps);
        auto.
      unfold bind at 1. cbv iota. cbn [fst snd app].
      destruct (IH (res ++ descriptor key (delta_of x base) ps :: nil)
                   (delitem String.eqb key T)) as [T' E]; auto.
      * rewrite Forall_forall in *. intros kv Hin Hkv. unfold getitem.
        rewrite assoc_delitem_other; [now apply HT'|].
        intro C. apply Hnotin. rewrite <- C. now apply in_map.
      * exists T'. rewrite <- surjective_pairing.
        etransitivity; [exact E|]. rewrite <- app_assoc. cbn [map app].
        unfold descriptor_of at 2, params_of. cbn [fst snd].
        unfold getitem in Eps.
        destruct (assoc String.eqb key tp); [|discriminate].
        now inversion Eps.
Qed.

(** When every tensor has the base's shape, [get_task_vectors] yields one
    descriptor per other model, writes no warning and raises nothing. *)
Lemma get_task_vectors_all_match (wi : WeightInfo) (base_model : string)
  (base : Tensor) (tensors : TensorMap) (tp : ParamMap) :
  all_match base_model base tensors tp ->
  exists tensors',
    get_task_vectors wi base_model tensors tp
    = (Ok (map (descriptor_of tp base) (filter (is_other base_model) tensors),
           base, tensors'), nil).
Proof.
  intros (Hn & Hb & Hs & Hp). unfold get_task_vectors.
  rewrite Hb, bind_lift_ok.
  assert (Wb : wf base).
  { destruct (getitem_In _ _ _ Hb) as [key' Hin].
    rewrite Forall_forall in Hs. exact (proj2 (Hs _ Hin)). }
  destruct (foldM_all_match wi base_model base tp tensors nil tensors Wb Hn)
    as [T' E]; auto.
  - apply Forall_forall. intros kv Hin _. unfold getitem.
    now rewrite (assoc_NoDup_In tensors kv Hn Hin).
  - exists T'. rewrite E. reflexivity.
Qed.

Lemma filter_other_length (base_model : string) (tensors : TensorMap)
  (base : Tensor) :
  NoDup (map fst tensors) ->
  getitem String.eqb base_model tensors = Ok base ->
  (length (filter (is_other base_model) tensors) + 1 = length tensors)%nat.
Proof.
  unfold getitem, is_other.
  induction tensors as [|[k0 v] m IH]; simpl; intros Hn H; [discriminate|].
  inversion Hn as [|? ? Hnotin Hn']; subst.
  destruct (String.eqb k0 base_model) eqn:E; simpl.
  - apply String.eqb_eq in E. subst k0.
    rewrite forallb_filter_id; [lia|].
    apply forallb_forall. intros [k1 v1] Hin. simpl.
    apply negb_true_iff, String.eqb_neq. intro C. subst k1.
    apply Hnotin. change base_model with (fst (base_model, v1)).
    now apply in_map.
  - rewrite <- (IH Hn' H). lia.
Qed.

(** X3: when every model's tensor has the base's shape, the number of
    descriptors is the number of models minus one, no warning is written,
    every delta is the model's tensor minus the base elementwise, and the
    dictionary is drained down to the base. *)
Theorem get_task_vectors_count (wi : WeightInfo) (base_model : string)
  (base : Tensor) (tensors : TensorMap) (tp : ParamMap) :
  all_match base_model base tensors tp ->
  exists tvs tensors',
    get_task_vectors wi base_model tensors tp = (Ok (tvs, base, tensors'), nil) /\
    (length tvs + 1 = length tensors)%nat /\
    tvs = map (descriptor_of tp base) (filter (is_other base_model) tensors) /\
    Forall (fun kv => fst kv = base_model) tensors'.
Proof.
  intro H. destruct (get_task_vectors_all_match wi base_model base tensors tp H)
    as [tensors' E].
  destruct H as (Hn & Hb & Hs & Hp).
  eexists _, tensors'. split; [exact E|]. split; [|split; [reflexivity|]].
  - rewrite length_map. now apply (filter_other_length base_model tensors base).
  - assert (E' : fst (get_task_vectors wi base_model tensors tp)
                 = Ok (map (descriptor_of tp base)
                           (filter (is_other base_model) tensors),
                       base, tensors')) by now rewrite E.
    unfold get_task_vectors in E'. rewrite Hb, bind_lift_ok in E'.
    destruct (foldM (gtv_step wi base_model base tp) (map fst tensors)
                    (nil, tensors)) as [[st|e] lg] eqn:Ef; simpl in E';
      [|discriminate].
    inversion E' as [[E1 E2]].
    destruct (foldM_gtv_invariant wi base_model base tp tensors (map fst tensors)
                (nil, tensors) st) as (added & _ & H2 & _ & _).
    + now rewrite Ef.
    + simpl. symmetry. apply forallb_filter_id. now apply forallb_forall.
    + rewrite H2, E1. apply Forall_forall. intros [k0 v] Hin.
      apply filter_In in Hin. destruct Hin as [Hin Hc]. cbn [fst] in *.
      destruct (String.eqb k0 base_model) eqn:E0; [now apply String.eqb_eq|].
      exfalso. apply negb_true_iff, not_true_iff_false in Hc. apply Hc.
      unfold contributed. apply existsb_exists. exists k0.
      split; [|apply String.eqb_refl].
      rewrite map_map. apply in_map_iff. exists (k0, v). split; [reflexivity|].
      apply filter_In. split; auto. unfold is_other. cbn [fst]. now rewrite E0.
Qed.

Lemma get_task_vectors_count_witness :
  exists tvs tensors',
    get_task_vectors {| name := "w"; is_embed := false |} "base"
                     two_model_tensors params_AB
    = (Ok (tvs, vec (0 :: 0 :: 0 :: 0 :: nil)%Z, tensors'), nil) /\
    (length tvs + 1 = 3)%nat /\
    tvs = map (descriptor_of params_AB (vec (0 :: 0 :: 0 :: 0 :: nil)%Z))
              (filter (is_other "base") two_model_tensors) /\
    Forall (fun kv => fst kv = "base") tensors'.
Proof.
  apply (get_task_vectors_count {| name := "w"; is_embed := false |} "base"
           (vec (0 :: 0 :: 0 :: 0 :: nil)%Z) two_model_tensors params_AB).
  repeat split.
  - repeat constructor; simpl; intuition discriminate.
  - repeat constructor.
  - apply Forall_cons; [intro C; exfalso; now apply C|].
    repeat (apply Forall_cons; [intros _; eexists; reflexivity|]).
    apply Forall_nil.
Defined.

(** ** get_mask: the mask and the masked sums, column by column *)

Lemma zipWith_map_same {A B C} (f : A -> B -> C) (g : A -> B) (l : list A) :
  zipWith f l (map g l) = map (fun a => f a (g a)) l.
Proof. induction l as [|a l IH]; simpl; auto. now rewrite IH. Qed.


Lemma elected_length (cm : ConsensusMethod.t) (delta : Stack) :
  length (elected cm delta) = numel (elem_shape delta).
Proof. unfold elected. now rewrite length_map, length_seq. Qed.

Lemma elected_nth (cm : ConsensusMethod.t) (delta : Stack) (j : nat) :
  (j < numel (elem_shape delta))%nat ->
  nth j (elected cm delta) false
  = Qcleb 0 (vote cm (column 0 (rows delta) j)).
Proof.
  intro Hj. unfold elected.
  rewrite (nth_map_lt _ _ j false 0%nat) by now rewrite length_seq.
  now rewrite seq_nth.
Qed.

(** The mask in the floating dtype, as a list of rows. *)
Lemma get_mask_float_rows (delta : Stack) (cm : ConsensusMethod.t) :
  wf_stack delta ->
  get_mask_in (T := Qc) delta (ConsensusMethod.value cm)
  = Ok (map (fun r => zipWith sign_matches r (elected cm delta)) (rows delta)).
Proof.
  intro Hwf. unfold wf_stack in Hwf.
  set (m := numel (elem_shape delta)) in *.
  assert (Hsum : map (Qcleb 0) (sum_dim0 m (rows delta))
                 = elected ConsensusMethod.sum delta).
  { apply (nth_ext _ _ false false).
    - rewrite length_map, elected_length. now apply sum_rows_length.
    - intros j Hj. rewrite length_map in Hj.
      unfold sum_dim0 in Hj. rewrite sum_rows_length in Hj by exact Hwf.
      rewrite elected_nth by exact Hj.
      rewrite (nth_map_lt _ _ j false 0)
        by (unfold sum_dim0; now rewrite sum_rows_length).
      now rewrite sum_dim0_nth. }
  assert (Hcount : map (Qcleb 0) (sum_dim0 m (map (map sgn) (rows delta)))
                   = elected ConsensusMethod.count delta).
  { assert (W : wf_rows m (map (map sgn) (rows delta))) by now apply wf_rows_map.
    apply (nth_ext _ _ false false).
    - rewrite length_map, elected_length. now apply sum_rows_length.
    - intros j Hj. rewrite length_map in Hj.
      unfold sum_dim0 in Hj. rewrite sum_rows_length in Hj by exact W.
      rewrite elected_nth by exact Hj.
      rewrite (nth_map_lt _ _ j false 0)
        by (unfold sum_dim0; now rewrite sum_rows_length).
      rewrite sum_dim0_nth by auto. unfold vote.
      now rewrite <- (column_map sgn 0 (rows delta) j m). }
  unfold get_mask_in. fold m.
  destruct cm; simpl ConsensusMethod.value.
  - destruct (string_dec "count" "sum") as [E|_]; [discriminate E|].
    destruct (string_dec "count" "count") as [_|E]; [|contradiction].
    f_equal. rewrite map_map. apply map_ext. intro r.
    rewrite (float_row_matches (fun s => acc_ge0 s)). f_equal. exact Hcount.
  - destruct (string_dec "sum" "sum") as [_|E]; [|contradiction].
    f_equal. rewrite map_map. apply map_ext. intro r.
    rewrite (float_row_matches (fun s => Qcleb 0 s)). f_equal. exact Hsum.
Qed.

(** The mask in any dtype, as a list of rows. *)
Lemma get_mask_rows_eq (delta : Stack) (cm : ConsensusMethod.t)
  (dt : option dtype) :
  wf_stack delta ->
  (dt = Some int8 -> (Z.of_nat (length (rows delta)) < 2 ^ 63)%Z) ->
  get_mask delta (ConsensusMethod.value cm) dt
  = Ok (map (fun r => zipWith sign_matches r (elected cm delta)) (rows delta)).
Proof.
  intros Hwf Hn. rewrite get_mask_any_dtype by exact Hn.
  now apply get_mask_float_rows.
Qed.
















(** ** get_mask: shape, ties, unanimity and scaling *)

Ltac qc_to_q :=
  repeat match goal with
         | H : @eq Qc ?a ?b |- _ =>
             let H' := fresh in
             assert (H' : (this a == this b)%Q) by (rewrite H; reflexivity);
             clear H
         end;
  try apply Qc_is_canon;
  unfold Qcle, Qclt, Qcdiv, Qcminus, Qcplus, Qcmult, Qcopp in *;
  cbn [this Q2Qc] in *;
  rewrite ?Qred_correct in *.

Ltac qc_lra := qc_to_q; lra.

Lemma get_mask_in_length {T} {D : MaskDtype T} (delta : Stack)
  (method : string) (mask : list (list bool)) :
  get_mask_in (T := T) delta method = Ok mask ->
  length mask = length (rows delta).
Proof.
  unfold get_mask_in.
  destruct (string_dec method "sum");
    [|destruct (string_dec method "count"); [|discriminate]];
    intro H; inversion H; now rewrite !length_map.
Qed.

(** X7: for either rule and either mask dtype, the mask has the shape of the
    stack it is computed from: one row per model and one entry per element. *)
Theorem get_mask_shape (delta : Stack) (cm : ConsensusMethod.t)
  (dt : option dtype) :
  wf_stack delta ->
  exists mask,
    get_mask delta (ConsensusMethod.value cm) dt = Ok mask /\
    length mask = length (rows delta) /\
    wf_rows (numel (elem_shape delta)) mask.
Proof.
  intro Hwf. destruct (get_mask_rows delta cm dt Hwf) as (mask & E & W).
  exists mask. repeat split; auto.
  destruct dt as [[|]|]; simpl in E.
  - exact (get_mask_in_length (T := Qc) delta _ mask E).
  - exact (get_mask_in_length (T := Z) delta _ mask E).
  - exact (get_mask_in_length (T := Qc) delta _ mask E).
Qed.

Lemma get_mask_shape_witness :
  exists mask,
    get_mask two_model_stack "count" (Some int8) = Ok mask /\
    length mask = 2%nat /\ wf_rows 4 mask.
Proof.
  apply (get_mask_shape two_model_stack ConsensusMethod.count (Some int8)).
  repeat constructor.
Defined.









Lemma vote_all_positive (cm : ConsensusMethod.t) (col : list Qc) :
  Forall (fun x => 0 < x) col -> 0 <= vote cm col.
Proof.
  intro H. destruct cm; unfold vote, total.
  - induction H as [|x col Hx H IH]; simpl; [apply Qcle_refl|].
    destruct (sgn_cases x) as [[H' E]|[[H' E]|[H' E]]]; rewrite E; qc_lra.
  - induction H as [|x col Hx H IH]; simpl; [apply Qcle_refl|]. qc_lra.
Qed.

Lemma vote_all_negative (cm : ConsensusMethod.t) (col : list Qc) :
  col <> nil -> Forall (fun x => x < 0) col -> vote cm col < 0.
Proof.
  intros Hne H.
  assert (G : forall l, Forall (fun x : Qc => x < 0) l ->
                        vote cm l <= 0 /\ (l <> nil -> vote cm l < 0)).
  { clear. intros l H. destruct cm; unfold vote, total;
      induction H as [|x l Hx H [IH1 IH2]]; simpl;
      try (split; [apply Qcle_refl|intro C; now elim C]).
    - destruct (sgn_cases x) as [[H' E]|[[H' E]|[H' E]]]; rewrite E;
        split; intros; qc_lra.
    - split; intros; qc_lra. }
  now apply G.
Qed.

(** X9: where the weighted deltas of all models agree in sign at every
    element (all positive or all negative), the mask keeps everything under
    both rules, and the masked sum is the plain sum of the weighted deltas. *)
Theorem unanimous_deltas_all_kept (weighted_deltas : Stack)
  (cm : ConsensusMethod.t) (dt : option dtype) :
  wf_stack weighted_deltas ->
  (dt = Some int8 -> (Z.of_nat (length (rows weighted_deltas)) < 2 ^ 63)%Z) ->
  (forall j, (j < numel (elem_shape weighted_deltas))%nat ->
             Forall (fun x => 0 < x) (column 0 (rows weighted_deltas) j) \/
             Forall (fun x => x < 0) (column 0 (rows weighted_deltas) j)) ->
  exists mask,
    get_mask weighted_deltas (ConsensusMethod.value cm) dt = Ok mask /\
    mask = map (map (fun _ => true)) (rows weighted_deltas) /\
    sum_dim0 (numel (elem_shape weighted_deltas))
             (masked_deltas (rows weighted_deltas) mask)
    = sum_dim0 (numel (elem_shape weighted_deltas)) (rows weighted_deltas).
Proof.
  intros Hwf Hn Hu. eexists. split; [now apply get_mask_rows_eq|].
  assert (E : map (fun r => zipWith sign_matches r (elected cm weighted_deltas))
                  (rows weighted_deltas)
              = map (map (fun _ => true)) (rows weighted_deltas)).
  { apply map_ext_in. intros r Hr.
    assert (Hl : length r = numel (elem_shape weighted_deltas)).
    { unfold wf_stack, wf_rows in Hwf. rewrite Forall_forall in Hwf. auto. }
    apply (nth_ext _ _ false false).
    - rewrite zipWith_length, elected_length, length_map. lia.
    - intros j Hj. rewrite zipWith_length, elected_length in Hj.
      rewrite (zipWith_nth sign_matches r _ j 0 false false)
        by (rewrite ?elected_length; lia).
      rewrite (nth_map_lt _ r j false 0) by lia.
      rewrite elected_nth by lia.
      assert (Hin : In (nth j r 0) (column 0 (rows weighted_deltas) j)).
      { unfold column. apply in_map_iff. exists r. auto. }
      apply sign_matches_true.
      destruct (Hu j ltac:(lia)) as [Hp|Hp].
      + pose proof (vote_all_positive cm _ Hp) as V.
        apply Qcleb_le in V. rewrite V.
        rewrite Forall_forall in Hp. specialize (Hp _ Hin).
        destruct (sgn_cases (nth j r 0)) as [[H' E']|[[H' E']|[H' E']]];
          auto; exfalso; qc_lra.
      + assert (Hne : column 0 (rows weighted_deltas) j <> nil).
        { intro C. rewrite C in Hin. contradiction. }
        pose proof (vote_all_negative cm _ Hne Hp) as V.
        apply Qcleb_gt in V. rewrite V.
        rewrite Forall_forall in Hp. specialize (Hp _ Hin).
        destruct (sgn_cases (nth j r 0)) as [[H' E']|[[H' E']|[H' E']]];
          auto; exfalso; qc_lra. }
  split; [exact E|]. rewrite E. f_equal.
  unfold masked_deltas. rewrite zipWith_map_same.
  rewrite <- (map_id (rows weighted_deltas)) at 2. apply map_ext. intro r.
  rewrite zipWith_map_same. rewrite <- (map_id r) at 2. apply map_ext.
  intro x. simpl. ring.
Qed.

Lemma unanimous_deltas_all_kept_witness :
  exists mask,
    get_mask unanimous_stack "count" (Some int8) = Ok mask /\
    mask = map (map (fun _ => true)) (rows unanimous_stack) /\
    sum_dim0 2 (masked_deltas (rows unanimous_stack) mask)
    = sum_dim0 2 (rows unanimous_stack).
Proof.
  apply (unanimous_deltas_all_kept unanimous_stack ConsensusMethod.count
           (Some int8)).
  - repeat constructor.
  - intros _. reflexivity.
  - intros j Hj. destruct j as [|[|j]].
    + left. repeat (constructor; try reflexivity).
    + right. repeat (constructor; try reflexivity).
    + simpl in Hj. lia.
Defined.








(** ** mix_stage with a consensus method, element by element *)







(** ** The normalized consensus value of one element *)






Lemma guard_nonzero (d : Qc) : (if Qceqb d 0 then 1 else d) <> 0.
Proof.
  destruct (Qceqb d 0) eqn:E; [discriminate|]. now apply Qceqb_neq.
Qed.


















(** ** execute without sparsification *)








Lemma others_fit (base_model : string) (base : Tensor) (tensors : TensorMap)
  (tp : ParamMap) :
  all_match base_model base tensors tp ->
  wf base /\
  Forall (fun kv => shape (snd kv) = shape base /\ wf (snd kv))
         (others base_model tensors).
Proof.
  intros (Hn & Hb & Hs & Hp). split.
  - destruct (getitem_In _ _ _ Hb) as [key' Hin].
    rewrite Forall_forall in Hs. exact (proj2 (Hs _ Hin)).
  - unfold others. apply Forall_forall. intros kv Hin.
    apply filter_In in Hin. rewrite Forall_forall in Hs. now apply Hs.
Qed.






(** ** A model with weight 0 *)













(** ** execute reads declared parameters only *)











(** ** The declarations *)

(** X18: [make_task] reads exactly the parameters that [parameters]
    declares.  It returns a task when each declared name is a key of the
    parameter map, the task carrying the three values, and raises KeyError
    otherwise. *)
Theorem make_task_reads_declared_parameters
  (self : GeneralizedTaskArithmeticMerge) (output_weight : WeightInfo)
  (base_model : string) (parameters : list (string * bool))
  (tensor_parameters : ParamMap) :
  let declared :=
    Forall (fun d => exists v, getitem String.eqb (cp_name d) parameters = Ok v)
           (Decl.parameters self) in
  (declared ->
   exists t,
     Decl.make_task self output_weight base_model parameters tensor_parameters
     = Ok t /\
     method t = self /\
     getitem String.eqb "int8_mask" parameters = Ok (int8_mask t) /\
     getitem String.eqb "normalize" parameters = Ok (normalize t) /\
     getitem String.eqb "rescale" parameters = Ok (rescale t)) /\
  (~ declared ->
   Decl.make_task self output_weight base_model parameters tensor_parameters
   = Err KeyError).
Proof.
  cbv zeta. unfold Decl.parameters, Decl.make_task, optional, getitem.
  split.
  - intro H. inversion H as [|? ? [a Ha] H1]; subst.
    inversion H1 as [|? ? [b Hb] H2]; subst.
    inversion H2 as [|? ? [c Hc] _]; subst. cbn [cp_name] in *.
    destruct (assoc String.eqb "int8_mask" parameters); [|discriminate].
    destruct (assoc String.eqb "normalize" parameters); [|discriminate].
    destruct (assoc String.eqb "rescale" parameters); [|discriminate].
    eexists. repeat split.
  - intro H.
    destruct (assoc String.eqb "int8_mask" parameters) eqn:E1; [|reflexivity].
    destruct (assoc String.eqb "normalize" parameters) eqn:E2; [|reflexivity].
    destruct (assoc String.eqb "rescale" parameters) eqn:E3; [|reflexivity].
    exfalso. apply H.
    repeat (apply Forall_cons;
            [cbn [cp_name]; rewrite ?E1, ?E2, ?E3; eexists; reflexivity|]).
    apply Forall_nil.
Qed.

(** X19: for every configuration of the method, [tensor_parameters]
    declares no name twice, every declared name is one of weight, density,
    gamma, epsilon, lambda and k, weight is the one required parameter, and
    every other declaration carries a default value. *)
Theorem tensor_parameters_declarations
  (self : GeneralizedTaskArithmeticMerge) :
  NoDup (map cp_name (Decl.tensor_parameters self)) /\
  Forall (fun d => (exists p, cp_name d = param_name p) /\
                   (required d = true <-> cp_name d = "weight") /\
                   (required d = false <-> default_value d <> None))
         (Decl.tensor_parameters self).
Proof.
  unfold Decl.tensor_parameters, Decl.is_method.
  destruct (sparsification_method self) as [[]|]; cbn; split.
  all: try (repeat constructor; simpl; intuition discriminate).
  all: repeat (apply Forall_cons;
               [split;
                [first [ now exists Param.weight | now exists Param.density
                       | now exists Param.gamma | now exists Param.epsilon
                       | now exists Param.lambda | now exists Param.k ]
                | split; split; intro H; try reflexivity;
                  try discriminate H; try (intro C; discriminate C);
                  try (exfalso; now apply H) ]|]);
    apply Forall_nil.
Qed.

(** ** A model without a weight *)

Lemma tv_get_cases (p : Param.t) (tv : Descriptor) :
  (exists v, tv_get p tv = Ok v) \/ tv_get p tv = Err KeyError.
Proof.
  unfold tv_get, getitem. destruct (assoc Param.eqb p (tv_params tv)); eauto.
Qed.

Lemma mapR_tv_get_cases (p : Param.t) (tvs : list Descriptor) :
  (exists vs, mapR (tv_get p) tvs = Ok vs) \/
  mapR (tv_get p) tvs = Err KeyError.
Proof.
  induction tvs as [|tv tvs IH]; simpl.
  - left. now exists nil.
  - destruct (tv_get_cases p tv) as [[v E]|E]; rewrite E; [|now right].
    destruct IH as [[vs E']|E']; rewrite E'; [left; eauto|now right].
Qed.

Lemma mapR_tv_get_missing (p : Param.t) (tvs : list Descriptor) :
  Exists (fun tv => tv_get p tv = Err KeyError) tvs ->
  mapR (tv_get p) tvs = Err KeyError.
Proof.
  intro H. destruct (mapR_tv_get_cases p tvs) as [[vs E]|E]; [|exact E].
  exfalso. revert vs E.
  induction H as [tv tvs H|tv tvs H IH]; intros vs E; simpl in E.
  - rewrite H in E. discriminate.
  - destruct (tv_get p tv); [|discriminate].
    destruct (mapR (tv_get p) tvs) as [vs'|]; [|discriminate].
    exact (IH vs' eq_refl).
Qed.

Lemma mapM_sparsify_one_err
  (sparsify : Tensor -> Qc -> SparsificationMethod.t -> bool -> option Qc
              -> option Qc -> Tensor)
  (self : GTATask) (sm : SparsificationMethod.t) (tvs : list Descriptor) :
  mapR (tv_get Param.density) tvs = Err KeyError ->
  fst (mapM (sparsify_one sparsify self sm) tvs) = Err KeyError.
Proof.
  induction tvs as [|tv tvs IH]; simpl; intro H; [discriminate|].
  destruct (tv_get Param.density tv) as [d|e] eqn:Ed.
  - destruct (mapR (tv_get Param.density) tvs) as [ds'|e] eqn:Er;
      [discriminate|].
    injection H as ->.
    rewrite (fst_bind _ _ (set_sparsified_delta tv
                             (sparsify (tv_delta tv) d sm (rescale self)
                                (assoc Param.eqb Param.gamma (tv_params tv))
                                (assoc Param.eqb Param.epsilon (tv_params tv))))).
    + now rewrite (fst_bind_err _ _ KeyError (IH eq_refl)).
    + unfold sparsify_one. rewrite Ed, bind_lift_ok. reflexivity.
  - injection H as ->. apply fst_bind_err.
    unfold sparsify_one. rewrite Ed. reflexivity.
Qed.

Lemma merge_missing_weight
  (sparsify : Tensor -> Qc -> SparsificationMethod.t -> bool -> option Qc
              -> option Qc -> Tensor)
  (get_tall_mask : Tensor -> Qc -> Tensor -> BoolTensor)
  (self : GTATask) (tvs : list Descriptor) (base : Tensor) :
  sparsify_keeps_shape sparsify ->
  tvs <> nil -> fits base tvs ->
  Exists (fun tv => tv_get Param.weight tv = Err KeyError) tvs ->
  fst (merge sparsify get_tall_mask self tvs base) = Err KeyError.
Proof.
  intros Hsp Hne Hfit Hw. unfold merge.
  assert (Fit : (sparsification_method (method self) <> None ->
                 sparsification_method (method self)
                 <> Some SparsificationMethod.consensus_ta ->
                 exists ds, mapR (tv_get Param.density) tvs = Ok ds) ->
                fst (st <- sparsify_stage sparsify self tvs ;;
                     weights <- lift (mapR (tv_get Param.weight) (fst st)) ;;
                     ret weights) = Err KeyError).
  { intro Hd.
    destruct (sparsify_stage_fits sparsify self base tvs Hsp Hne Hfit Hd)
      as (tvs' & deltas & E & SC & _).
    rewrite (fst_bind _ _ _ E). cbn [fst]. apply fst_bind_err. cbn [lift fst].
    rewrite (same_core_mapR Param.weight tvs tvs' SC).
    now apply mapR_tv_get_missing. }
  assert (Main : fst (st <- sparsify_stage sparsify self tvs ;;
                      weights <- lift (mapR (tv_get Param.weight) (fst st)) ;;
                      ret weights) = Err KeyError).
  { destruct (mapR_tv_get_cases Param.density tvs) as [Hd|Hd];
      [apply Fit; intros _ _; exact Hd|].
    destruct (sparsification_method (method self)) as [sm|] eqn:Hsm.
    2: { apply Fit. intro C. now contradiction C. }
    destruct (SparsificationMethod.eqb sm SparsificationMethod.consensus_ta)
      eqn:Esm.
    { apply Fit. intros _ C. exfalso. apply C. f_equal.
      destruct sm; try discriminate Esm; reflexivity. }
    apply fst_bind_err. unfold sparsify_stage. rewrite Hsm, Esm. cbn [negb].
    apply fst_bind_err. now apply mapM_sparsify_one_err. }
  destruct (sparsify_stage sparsify self tvs) as [[st|e] l] eqn:Est.
  - cbn [bind fst] in *. 
    destruct (mapR (tv_get Param.weight) (fst st)) as [ws|e] eqn:Ews.
    + exfalso. cbn in Main. discriminate Main.
    + cbn in Main. cbn. injection Main as ->. reflexivity.
  - cbn in *. injection Main as ->. reflexivity.
Qed.

(** X20: a model without the key [weight] makes the merge fail.  When
    every tensor has the base's shape and some model other than the base
    has no weight, [execute] raises KeyError in every mode. *)
Theorem missing_weight_raises_key_error
  (sparsify : Tensor -> Qc -> SparsificationMethod.t -> bool -> option Qc
              -> option Qc -> Tensor)
  (get_tall_mask : Tensor -> Qc -> Tensor -> BoolTensor)
  (self : GTATask) (base : Tensor) (tensors : TensorMap) :
  sparsify_keeps_shape sparsify ->
  all_match (base_model self) base tensors (tensor_parameters self) ->
  Exists (fun kv => fst kv <> base_model self /\
                    assoc Param.eqb Param.weight
                      (params_of (tensor_parameters self) (fst kv)) = None)
         tensors ->
  fst (execute sparsify get_tall_mask self tensors) = Err KeyError.
Proof.
  intros Hsp Hall Hex.
  destruct (get_task_vectors_all_match (weight_info self) (base_model self)
              base tensors (tensor_parameters self) Hall) as [T' G].
  destruct (others_fit _ _ _ _ Hall) as [Wb Hts].
  unfold execute. rewrite (fst_bind _ _ _ (f_equal fst G)). cbn [fst snd].
  fold (others (base_model self) tensors).
  set (ts := others (base_model self) tensors) in *.
  assert (Hex' : Exists (fun tv => tv_get Param.weight tv = Err KeyError)
                        (map (descriptor_of (tensor_parameters self) base) ts)).
  { apply Exists_exists in Hex. destruct Hex as (kv & Hin & Hne & Hnone).
    apply Exists_exists.
    exists (descriptor_of (tensor_parameters self) base kv). split.
    - apply in_map. unfold ts, others. apply filter_In. split; auto.
      unfold is_other. apply negb_true_iff. now apply String.eqb_neq.
    - unfold tv_get, getitem, descriptor_of, descriptor. cbn [tv_params].
      now rewrite Hnone. }
  destruct (map (descriptor_of (tensor_parameters self) base) ts)
    as [|tv0 tvs0] eqn:Etvs.
  - inversion Hex'.
  - rewrite <- Etvs in *.
    apply (merge_missing_weight sparsify get_tall_mask self _ base); auto.
    + rewrite Etvs. discriminate.
    + unfold fits. rewrite Forall_map. revert Hts. apply Forall_impl.
      intros kv [Hs Hw]. unfold descriptor_of, descriptor, delta_of, wf in *.
      cbn [tv_delta shape data]. split; auto.
      rewrite zipWith_length, Hw, Hs, Wb. lia.
Qed.

Lemma missing_weight_raises_key_error_witness :
  fst (execute sparsify_zero tall_mask_all
         (task (Some ConsensusMethod.sum)
               (Some SparsificationMethod.magnitude) false false true
               params_B_weightless)
         two_model_tensors)
  = Err KeyError.
Proof.
  apply (missing_weight_raises_key_error sparsify_zero tall_mask_all
           (task (Some ConsensusMethod.sum)
                 (Some SparsificationMethod.magnitude) false false true
                 params_B_weightless)
           (vec (0 :: 0 :: 0 :: 0 :: nil)%Z) two_model_tensors).
  - intros t d sm r g e. split; [reflexivity|].
    unfold wf. simpl. now rewrite length_map.
  - split; [|split; [|split]].
    + repeat constructor; simpl; intuition discriminate.
    + reflexivity.
    + repeat constructor.
    + apply Forall_cons; [intro C; exfalso; now apply C|].
      repeat (apply Forall_cons; [intros _; eexists; reflexivity|]).
      apply Forall_nil.
  - apply Exists_cons_tl. apply Exists_cons_tl. apply Exists_cons_hd.
    split; [discriminate|reflexivity].
Defined.

(** ** Model cards *)

Lemma looks_local_dec (p : string) (c : Ascii.ascii) (s : string) :
  p = String c s ->
  (Card.contains "/~" c || (1 <? Card.count p Card.slash)%nat = true
   <-> Card.looks_local p).
Proof.
  intro E. subst p. unfold Card.looks_local.
  rewrite orb_true_iff, Nat.ltb_lt. reflexivity.
Qed.

Lemma is_hf_local (path_exists : string -> bool)
  (repo_exists : string -> option bool) (p : string) :
  Card.looks_local p -> Card.is_hf path_exists repo_exists p = Ok false.
Proof.
  intro H. destruct p as [|c s]; [contradiction|].
  unfold Card.is_hf. apply (looks_local_dec _ c s eq_refl) in H.
  now rewrite H.
Qed.

Lemma is_hf_not_local (path_exists : string -> bool)
  (repo_exists : string -> option bool) (p : string) :
  p <> EmptyString -> ~ Card.looks_local p ->
  Card.is_hf path_exists repo_exists p
  = Ok (if negb (path_exists p) then true
        else match repo_exists p with Some b => b | None => false end).
Proof.
  intros Hne H. destruct p as [|c s]; [contradiction|].
  unfold Card.is_hf.
  destruct (Card.contains "/~" c
            || (1 <? Card.count (String c s) Card.slash)%nat) eqn:E.
  - exfalso. apply H. now apply (looks_local_dec _ c s eq_refl).
  - destruct (negb (path_exists (String c s))); [reflexivity|].
    now destruct (repo_exists (String c s)).
Qed.

Lemma is_hf_total (path_exists : string -> bool)
  (repo_exists : string -> option bool) (p : string) :
  p <> EmptyString ->
  Card.is_hf path_exists repo_exists p
  = Ok (Card.hf path_exists repo_exists p).
Proof.
  intro Hne. unfold Card.hf.
  destruct (Card.is_hf path_exists repo_exists p) as [b|e] eqn:E.
  - now destruct b.
  - exfalso. destruct p as [|c s]; [contradiction|].
    unfold Card.is_hf in E.
    destruct (Card.contains "/~" c
              || (1 <? Card.count (String c s) Card.slash)%nat);
      [discriminate E|].
    destruct (negb (path_exists (String c s))); [discriminate E|].
    destruct (repo_exists (String c s)); discriminate E.
Qed.

(** X21: [is_hf] answers True exactly for a non-empty path that neither
    starts with [/] or [~] nor holds more than one [/], and that does not
    exist locally or names a repository the hub knows; it raises IndexError
    exactly on the empty path.  A path that exists neither locally nor on
    the hub is therefore taken for a hub repository. *)
Theorem is_hf_true_iff (path_exists : string -> bool)
  (repo_exists : string -> option bool) (p : string) :
  (Card.is_hf path_exists repo_exists p = Ok true
   <-> p <> EmptyString /\ ~ Card.looks_local p /\
       (path_exists p = false \/ repo_exists p = Some true)) /\
  (Card.is_hf path_exists repo_exists p = Err IndexError
   <-> p = EmptyString).
Proof.
  split.
  - split.
    + intro H. destruct p as [|c s] eqn:Ep; [discriminate H|]. rewrite <- Ep in *.
      assert (Hne : p <> EmptyString) by (rewrite Ep; discriminate).
      split; [exact Hne|].
      assert (Nl : ~ Card.looks_local p).
      { intro L. rewrite (is_hf_local _ _ _ L) in H. discriminate H. }
      split; [exact Nl|].
      rewrite (is_hf_not_local _ _ _ Hne Nl) in H.
      destruct (path_exists p); [right|now left].
      simpl in H. destruct (repo_exists p) as [b|]; [|discriminate H].
      injection H as ->. reflexivity.
    + intros (Hne & Nl & H). rewrite (is_hf_not_local _ _ _ Hne Nl).
      destruct H as [H|H]; rewrite H; [reflexivity|].
      now destruct (negb (path_exists p)).
  - split.
    + intro H. destruct p as [|c s]; [reflexivity|]. exfalso.
      rewrite is_hf_total in H by discriminate. discriminate H.
    + intro E. subst p. reflexivity.
Qed.

Lemma hf_paths_of_nonempty (ModelReference : Type)
  (model_path : ModelReference -> string)
  (lora_path : ModelReference -> option string)
  (path_exists : string -> bool) (repo_exists : string -> option bool)
  (m : ModelReference) :
  Forall (fun p => p <> EmptyString)
         (Card.paths_of ModelReference model_path lora_path m) ->
  Card.hf_paths_of ModelReference model_path lora_path path_exists
    repo_exists m
  = Ok (filter (Card.hf path_exists repo_exists)
               (Card.paths_of ModelReference model_path lora_path m)).
Proof.
  unfold Card.paths_of, Card.hf_paths_of. intro H.
  apply Forall_cons_iff in H. destruct H as [H1 H2].
  rewrite (is_hf_total _ _ _ H1). cbn [Card.bindR filter].
  destruct (lora_path m) as [l|].
  - apply Forall_cons_iff in H2. destruct H2 as [H3 _].
    rewrite (is_hf_total _ _ _ H3). cbn [Card.bindR filter].
    destruct (Card.hf path_exists repo_exists (model_path m)),
             (Card.hf path_exists repo_exists l); reflexivity.
  - destruct (Card.hf path_exists repo_exists (model_path m)); reflexivity.
Qed.

Lemma hf_paths_of_empty (ModelReference : Type)
  (model_path : ModelReference -> string)
  (lora_path : ModelReference -> option string)
  (path_exists : string -> bool) (repo_exists : string -> option bool)
  (m : ModelReference) :
  Exists (fun p => p = EmptyString)
         (Card.paths_of ModelReference model_path lora_path m) ->
  Card.hf_paths_of ModelReference model_path lora_path path_exists
    repo_exists m
  = Err IndexError.
Proof.
  unfold Card.paths_of, Card.hf_paths_of. intro H.
  destruct (model_path m) as [|c s] eqn:Ep; [reflexivity|].
  apply Exists_cons in H. destruct H as [H|H]; [discriminate H|].
  destruct (lora_path m) as [l|]; [|inversion H].
  apply Exists_cons in H. destruct H as [H|H]; [|inversion H].
  subst l. rewrite is_hf_total by discriminate. reflexivity.
Qed.

(** X22: [extract_hf_paths] yields, in the order of the list and the model
    before its LoRA, exactly the paths for which [is_hf] answers True, when
    no path is empty; when some path is empty the iteration ends in
    IndexError. *)
Theorem extract_hf_paths_filter (ModelReference : Type)
  (model_path : ModelReference -> string)
  (lora_path : ModelReference -> option string)
  (path_exists : string -> bool) (repo_exists : string -> option bool)
  (models : list ModelReference) :
  let paths :=
    flat_map (Card.paths_of ModelReference model_path lora_path) models in
  (Forall (fun p => p <> EmptyString) paths ->
   Card.extract_hf_paths ModelReference model_path lora_path path_exists
     repo_exists models
   = Ok (filter (Card.hf path_exists repo_exists) paths)) /\
  (Exists (fun p => p = EmptyString) paths ->
   Card.extract_hf_paths ModelReference model_path lora_path path_exists
     repo_exists models
   = Err IndexError).
Proof.
  cbv zeta. split.
  - induction models as [|m models IH]; intro H; [reflexivity|].
    cbn [flat_map] in H. apply Forall_app in H. destruct H as [H1 H2].
    cbn [Card.extract_hf_paths flat_map].
    rewrite (hf_paths_of_nonempty _ _ _ _ _ _ H1). cbn [Card.bindR].
    rewrite (IH H2). cbn [Card.bindR]. now rewrite filter_app.
  - induction models as [|m models IH]; intro H; [inversion H|].
    cbn [flat_map] in H. apply Exists_app in H.
    cbn [Card.extract_hf_paths].
    destruct (Exists_dec (fun p => p = EmptyString)
                (Card.paths_of ModelReference model_path lora_path m))
      as [X|X].
    + intro p. destruct p; [now left|right; discriminate].
    + now rewrite (hf_paths_of_empty _ _ _ _ _ _ X).
    + apply Forall_Exists_neg in X.
      rewrite (hf_paths_of_nonempty _ _ _ _ _ _ X). cbn [Card.bindR].
      destruct H as [H|H].
      * exfalso. apply Exists_exists in H. destruct H as (p & Hin & Hp).
        rewrite Forall_forall in X. exact (X p Hin Hp).
      * now rewrite (IH H).
Qed.

Lemma extract_hf_paths_filter_witness :
  Card.extract_hf_paths (string * option string) fst snd
    Card.nothing_exists Card.no_repo (Card.local_ref :: Card.hub_ref :: nil)
  = Ok ("org/model" :: nil).
Proof.
  apply (proj1 (extract_hf_paths_filter (string * option string) fst snd
                  Card.nothing_exists Card.no_repo
                  (Card.local_ref :: Card.hub_ref :: nil))).
  repeat constructor; discriminate.
Defined.

(** X23: a reference whose paths all look local (a leading [/] or [~], or
    more than one [/]) is rendered by [modelref_md] as its bare paths, the
    model and then [ + ] and the LoRA, whatever the file system and the hub
    say. *)
Theorem modelref_md_local (ModelReference : Type)
  (model_path : ModelReference -> string)
  (lora_path : ModelReference -> option string)
  (path_exists : string -> bool) (repo_exists : string -> option bool)
  (m : ModelReference) :
  Forall Card.looks_local
         (Card.paths_of ModelReference model_path lora_path m) ->
  Card.modelref_md ModelReference model_path lora_path path_exists
    repo_exists m
  = Ok (Card.plain_text ModelReference model_path lora_path m).
Proof.
  unfold Card.paths_of, Card.modelref_md, Card.maybe_link_hf, Card.plain_text.
  intro H. apply Forall_cons_iff in H. destruct H as [H1 H2].
  rewrite (is_hf_local _ _ _ H1). cbn [Card.bindR].
  destruct (lora_path m) as [l|]; [|reflexivity].
  apply Forall_cons_iff in H2. destruct H2 as [H3 _].
  rewrite (is_hf_local _ _ _ H3). reflexivity.
Qed.

Lemma modelref_md_local_witness :
  Card.modelref_md (string * option string) fst snd
    Card.everything_exists Card.every_repo Card.local_ref
  = Ok "/models/a + ~/loras/b".
Proof.
  apply (modelref_md_local (string * option string) fst snd
           Card.everything_exists Card.every_repo Card.local_ref).
  apply Forall_cons; [left; reflexivity|].
  apply Forall_cons; [left; reflexivity|]. apply Forall_nil.
Defined.

(** ** The order of the models *)










(** ** The shape of the deltas *)

(** X4: for a weight that is not an embedding, whatever the shapes of the
    tensors handed in, every descriptor that a successful
    [get_task_vectors] returns has a delta of the base's shape with as many
    elements as that shape holds: a tensor of another shape never
    contributes. *)
Theorem get_task_vectors_deltas_fit (wi : WeightInfo) (base_model : string)
  (tensors : TensorMap) (tp : ParamMap) (tvs : list Descriptor)
  (base : Tensor) (tensors' : TensorMap) :
  is_embed wi = false ->
  Forall (fun kv => wf (snd kv)) tensors ->
  fst (get_task_vectors wi base_model tensors tp) = Ok (tvs, base, tensors') ->
  wf base /\
  Forall (fun tv => shape (tv_delta tv) = shape base /\ wf (tv_delta tv)) tvs.
Proof.
  intros He Wt H.
  exact (get_task_vectors_fits wi base_model tensors tp tvs base tensors'
           He Wt H).
Qed.

Lemma get_task_vectors_deltas_fit_witness :
  wf (vec (0 :: 0 :: 0 :: 0 :: nil)%Z) /\
  Forall (fun tv => shape (tv_delta tv) = shape (vec (0 :: 0 :: 0 :: 0 :: nil)%Z)
                    /\ wf (tv_delta tv))
         two_model_descriptors.
Proof.
  apply (get_task_vectors_deltas_fit {| name := "w"; is_embed := false |}
           "base" two_model_tensors params_AB two_model_descriptors
           (vec (0 :: 0 :: 0 :: 0 :: nil)%Z)
           (("base", vec (0 :: 0 :: 0 :: 0 :: nil)%Z) :: nil)).
  - reflexivity.
  - repeat constructor.
  - vm_compute. reflexivity.
Defined.

Lemma make_task_reads_declared_parameters_witness :
  exists t,
    Decl.make_task (gta None None) {| name := "w"; is_embed := false |} "base"
      (("rescale", false) :: ("int8_mask", true) :: ("normalize", true) :: nil)
      params_AB = Ok t /\
    method t = gta None None /\
    getitem String.eqb "int8_mask"
      (("rescale", false) :: ("int8_mask", true) :: ("normalize", true) :: nil)
    = Ok (int8_mask t) /\
    getitem String.eqb "normalize"
      (("rescale", false) :: ("int8_mask", true) :: ("normalize", true) :: nil)
    = Ok (normalize t) /\
    getitem String.eqb "rescale"
      (("rescale", false) :: ("int8_mask", true) :: ("normalize", true) :: nil)
    = Ok (rescale t).
Proof.
  apply (proj1 (make_task_reads_declared_parameters (gta None None)
                  {| name := "w"; is_embed := false |} "base"
                  (("rescale", false) :: ("int8_mask", true)
                   :: ("normalize", true) :: nil)
                  params_AB)).
  repeat (apply Forall_cons; [eexists; reflexivity|]). apply Forall_nil.
Defined.
